(** * Peer identities and the RSA key codec of js-libp2p

    A shallow embedding of

    - [packages/crypto/src/keys/rsa/utils.ts]: the big-integer codec
      ([bnToBuf], [bufToBn]), the JWK <-> DER converters and the RSA key
      constructors with their key-size policy;
    - the peer-id package entry point ([peerIdFromString],
      [peerIdFromPublicKey], [peerIdFromMultihash], [peerIdFromCID]).

    JavaScript exceptions become the [Err] branch of [result]; the order in
    which the source evaluates and throws is kept. A [Uint8Array] is a
    [list Z] whose elements lie in [0, 255]; a JavaScript string produced or
    sliced by the code is a [list ascii] (hex strings) or a [string]. *)

From Stdlib Require Import String Ascii ZArith List Bool Lia.
Import ListNotations.
Open Scope Z_scope.
Set Warnings "-register-all".

(** ** Errors and results *)

(** The error classes the code throws, with the ones raised by the
    JavaScript runtime ([SyntaxError] from [BigInt] and the multibase
    decoders, [TypeError] from property access on [undefined] and from the
    [URL] constructor, a plain [Error] from the multiformats decoders). *)
Inductive error : Type :=
| InvalidParametersError (msg : string)
| InvalidPublicKeyError (msg : string)
| InvalidCIDError (msg : string)
| InvalidMultihashError (msg : string)
| UnsupportedKeyTypeError
| SyntaxError (msg : string)
| TypeError (msg : string)
| JsError (msg : string).

Inductive result (A : Type) : Type :=
| Ok (a : A)
| Err (e : error).
Arguments Ok {A} a.
Arguments Err {A} e.

Definition bind_r {A B : Type} (m : result A) (k : A -> result B) : result B :=
  match m with
  | Ok a => k a
  | Err e => Err e
  end.

Notation "x <- m ;; k" := (bind_r m (fun x => k))
  (at level 61, m at next level, right associativity).

Definition is_param_error (e : error) : bool :=
  match e with
  | InvalidParametersError _ => true
  | _ => false
  end.

(** A [Uint8Array]. *)
Definition bytes := list Z.

Definition bytes_ok (b : bytes) : Prop := Forall (fun x => 0 <= x < 256) b.

(** Big-endian value of a byte sequence. *)
Definition be_value (b : bytes) : Z := fold_left (fun acc x => acc * 256 + x) b 0.

(** ** Hexadecimal strings, as produced by [Number.prototype.toString(16)],
    [BigInt.prototype.toString(16)] and read by [parseInt(_, 16)] *)

Definition hex_char (d : Z) : ascii :=
  if d <? 10 then ascii_of_nat (48 + Z.to_nat d) else ascii_of_nat (87 + Z.to_nat d).

Definition hex_digit (c : ascii) : option Z :=
  let k := Z.of_nat (nat_of_ascii c) in
  if (48 <=? k) && (k <=? 57) then Some (k - 48)
  else if (97 <=? k) && (k <=? 102) then Some (k - 87)
  else if (65 <=? k) && (k <=? 70) then Some (k - 55)
  else None.

Fixpoint to_hex_aux (fuel : nat) (n : Z) (acc : list ascii) : list ascii :=
  match fuel with
  | O => acc
  | S f =>
      if n <? 16 then hex_char n :: acc
      else to_hex_aux f (n / 16) (hex_char (n mod 16) :: acc)
  end.

(** [x.toString(16)] for an integer [x]: lower-case digits, no leading
    zero, ["0"] for zero, a ['-'] sign for negatives. *)
Definition to_string16 (x : Z) : list ascii :=
  let digits n := to_hex_aux (S (Z.to_nat (Z.log2 n))) n [] in
  if x <? 0 then "-"%char :: digits (- x) else digits x.

Fixpoint hex_prefix (s : list ascii) (acc : Z) (seen : bool) : option Z :=
  match s with
  | c :: t =>
      match hex_digit c with
      | Some d => hex_prefix t (acc * 16 + d) true
      | None => if seen then Some acc else None
      end
  | [] => if seen then Some acc else None
  end.

(** [parseInt(s, 16)]: an optional sign, an optional [0x] prefix, then the
    longest run of hex digits; [None] is [NaN]. (The strings given to it
    here never carry white space.) *)
Definition parseInt16 (s : list ascii) : option Z :=
  let '(sign, s1) :=
    match s with
    | "-"%char :: t => (-1, t)
    | "+"%char :: t => (1, t)
    | _ => (1, s)
    end in
  let s2 :=
    match s1 with
    | "0"%char :: "x"%char :: t => t
    | "0"%char :: "X"%char :: t => t
    | _ => s1
    end in
  option_map (Z.mul sign) (hex_prefix s2 0 false).

(** Storing a number into a [Uint8Array] cell (ToUint8). *)
Definition to_uint8 (v : option Z) : Z :=
  match v with
  | Some z => z mod 256
  | None => 0
  end.

(** The loop of [bnToBuf]: [u8[i] = parseInt(hex.slice(j, j + 2), 16)]. *)
Fixpoint hex_pairs (h : list ascii) : bytes :=
  match h with
  | a :: b :: t => to_uint8 (parseInt16 [a; b]) :: hex_pairs t
  | _ => []
  end.

Definition pad_even (h : list ascii) : list ascii :=
  if Nat.odd (List.length h) then "0"%char :: h else h.

(** [function bnToBuf (bn: bigint): Uint8Array] *)
Definition bnToBuf (bn : Z) : bytes :=
  let hex := pad_even (to_string16 bn) in
  hex_pairs hex.

(** [BigInt('0x' + s)]: a [SyntaxError] when [s] is empty or holds a
    non-hex character. *)
Fixpoint hex_all (s : list ascii) (acc : Z) : option Z :=
  match s with
  | [] => Some acc
  | c :: t =>
      match hex_digit c with
      | Some d => hex_all t (acc * 16 + d)
      | None => None
      end
  end.

Definition BigInt_hex (s : list ascii) : result Z :=
  match s with
  | [] => Err (SyntaxError "Cannot convert 0x to a BigInt")
  | _ =>
      match hex_all s 0 with
      | Some z => Ok z
      | None => Err (SyntaxError "Cannot convert to a BigInt")
      end
  end.

(** [function bufToBn (u8: Uint8Array): bigint] *)
Definition bufToBn (u8 : bytes) : result Z :=
  let hex := map (fun i => pad_even (to_string16 i)) u8 in
  BigInt_hex (concat hex).

(** ** base64url, as [uint8arrays] runs it (the RFC 4648 codec of
    [multiformats], 6 bits per character, no padding)

    The JavaScript loops keep the bit buffer in a 32-bit integer; only its
    low [bits + 8 <= 14] bits are ever read, so an unbounded [Z] buffer
    yields the same characters and bytes. *)

Definition b64url_char (v : Z) : ascii :=
  if v <? 26 then ascii_of_nat (65 + Z.to_nat v)
  else if v <? 52 then ascii_of_nat (97 + Z.to_nat (v - 26))
  else if v <? 62 then ascii_of_nat (48 + Z.to_nat (v - 52))
  else if v =? 62 then "-"%char
  else "_"%char.

Definition b64url_code (c : ascii) : option Z :=
  let k := Z.of_nat (nat_of_ascii c) in
  if (65 <=? k) && (k <=? 90) then Some (k - 65)
  else if (97 <=? k) && (k <=? 122) then Some (k - 71)
  else if (48 <=? k) && (k <=? 57) then Some (k + 4)
  else if k =? 45 then Some 62
  else if k =? 95 then Some 63
  else None.

(** [while (bits > bitsPerChar) { bits -= bitsPerChar; out += ... }] *)
Fixpoint rfc_drain (fuel : nat) (bits buffer : Z) (out : list ascii) : Z * list ascii :=
  match fuel with
  | O => (bits, out)
  | S f =>
      if 6 <? bits
      then rfc_drain f (bits - 6) buffer
             (out ++ [b64url_char (Z.land 63 (Z.shiftr buffer (bits - 6)))])
      else (bits, out)
  end.

Fixpoint rfc_encode_loop (data : bytes) (bits buffer : Z) (out : list ascii)
  : Z * Z * list ascii :=
  match data with
  | [] => (bits, buffer, out)
  | x :: t =>
      let buffer' := Z.lor (Z.shiftl buffer 8) x in
      let '(bits', out') := rfc_drain (Z.to_nat (bits + 8)) (bits + 8) buffer' out in
      rfc_encode_loop t bits' buffer' out'
  end.

(** [uint8ArrayToString(data, 'base64url')] *)
Definition b64url_encode (data : bytes) : string :=
  let '(bits, buffer, out) := rfc_encode_loop data 0 0 [] in
  let out :=
    if bits =? 0 then out
    else out ++ [b64url_char (Z.land 63 (Z.shiftl buffer (6 - bits)))] in
  string_of_list_ascii out.

Fixpoint rfc_decode_loop (s : list ascii) (bits buffer : Z) (out : bytes)
  : result (Z * Z * bytes) :=
  match s with
  | [] => Ok (bits, buffer, out)
  | c :: t =>
      match b64url_code c with
      | None => Err (SyntaxError "Non-base64url character")
      | Some v =>
          let buffer' := Z.lor (Z.shiftl buffer 6) v in
          if 8 <=? bits + 6
          then rfc_decode_loop t (bits + 6 - 8) buffer'
                 (out ++ [Z.land 255 (Z.shiftr buffer' (bits + 6 - 8))])
          else rfc_decode_loop t (bits + 6) buffer' out
      end
  end.

Fixpoint drop_pad (s : list ascii) : list ascii :=
  match s with
  | "="%char :: t => drop_pad t
  | _ => s
  end.

(** [uint8ArrayFromString(s, 'base64url')] *)
Definition b64url_decode (s : string) : result bytes :=
  let chars := rev (drop_pad (rev (list_ascii_of_string s))) in
  match rfc_decode_loop chars 0 0 [] with
  | Err e => Err e
  | Ok (bits, buffer, out) =>
      if (6 <=? bits) || negb (Z.land 255 (Z.shiftl buffer (8 - bits)) =? 0)
      then Err (SyntaxError "Unexpected end of data")
      else Ok out
  end.

(** ** ASN.1, as [asn1js] encodes and decodes it *)

(** The asn1js objects the converters build. *)
Inductive asn1 : Type :=
| ASequence (value : list asn1)
| AInteger (valueHex : bytes)
| ABitString (valueHex : bytes)
| AObjectIdentifier (arcs : list Z)
| ANull.

(** Fixed-width big-endian digits in base 256. *)
Fixpoint be_fixed (k : nat) (v : Z) : bytes :=
  match k with
  | O => []
  | S k' => be_fixed k' (v / 256) ++ [v mod 256]
  end.

(** [pvutils.utilToBase(value, 8)]: the shortest of 1 to 7 big-endian
    bytes that holds [value]; an empty buffer beyond 7 bytes. *)
Definition utilToBase (v : Z) : bytes :=
  let fix go (i : nat) (fuel : nat) : bytes :=
    match fuel with
    | O => []
    | S f => if v <? 2 ^ (8 * Z.of_nat i) then be_fixed i v else go (S i) f
    end in
  go 1%nat 7%nat.

(** [LocalLengthBlock.toBER]: short form below 128, else long form. *)
Definition length_toBER (len : Z) : bytes :=
  if len <? 128 then [len]
  else let enc := utilToBase len in
       Z.lor (Z.of_nat (List.length enc)) 128 :: enc.

(** Base-128 sub-identifiers of an OID, high groups flagged with 0x80. *)
Fixpoint base128_high (fuel : nat) (v : Z) (acc : bytes) : bytes :=
  match fuel with
  | O => acc
  | S f => if v =? 0 then acc else base128_high f (v / 128) (Z.lor (v mod 128) 128 :: acc)
  end.

Definition sid_toBER (v : Z) : bytes :=
  base128_high (S (Z.to_nat (Z.log2 v))) (v / 128) [v mod 128].

Definition oid_content (arcs : list Z) : bytes :=
  match arcs with
  | a :: b :: t => concat (map sid_toBER (40 * a + b :: t))
  | _ => []
  end.

(** [toBER()] of the asn1js objects. *)
Fixpoint toBER (a : asn1) : bytes :=
  match a with
  | ASequence vs =>
      let content := concat (map toBER vs) in
      48 :: length_toBER (Z.of_nat (List.length content)) ++ content
  | AInteger v => 2 :: length_toBER (Z.of_nat (List.length v)) ++ v
  | ABitString v => 3 :: length_toBER (Z.of_nat (S (List.length v))) ++ 0 :: v
  | AObjectIdentifier arcs =>
      let c := oid_content arcs in
      6 :: length_toBER (Z.of_nat (List.length c)) ++ c
  | ANull => [5; 0]
  end.

(** [pvtsutils.Convert.FromHex] *)
Definition convert_FromHex (h : list ascii) : bytes :=
  match h with
  | [] => []
  | _ => hex_pairs (pad_even h)
  end.

Definition set_high_bit (b : bytes) : bytes :=
  match b with
  | [] => []
  | h :: t => Z.lor h 128 :: t
  end.

(** [asn1js.Integer.fromBigInt(value)]: two's complement, a leading zero
    byte added to a non-negative value whose first byte has its high bit
    set. *)
Definition Integer_fromBigInt (x : Z) : asn1 :=
  let view := convert_FromHex (to_string16 (Z.abs x)) in
  let high := negb (Z.land (hd 0 view) 128 =? 0) in
  if x <? 0 then
    let m := (List.length view + (if high then 1 else 0))%nat in
    let firstInt := 128 * 256 ^ (Z.of_nat m - 1) in
    AInteger (set_high_bit (convert_FromHex (to_string16 (firstInt + x))))
  else AInteger ((if high then [0] else []) ++ view).

(** The nodes [asn1js.fromBER] returns: a tag byte with its content, or
    a constructed tag byte with its children. *)
Inductive ber : Type :=
| BPrim (tag : Z) (content : bytes)
| BCons (tag : Z) (children : list ber).

(** [LocalLengthBlock.fromBER]: short form, or long form with at most 8
    length bytes; the indefinite form (0x80) is not decoded here. *)
Definition parse_length (bs : bytes) : option (Z * bytes) :=
  match bs with
  | [] => None
  | l :: t =>
      if l <? 128 then Some (l, t)
      else if (l =? 128) || (l =? 255) then None
      else let k := Z.to_nat (l - 128) in
           if (8 <? k)%nat || (List.length t <? k)%nat then None
           else Some (be_value (firstn k t), skipn k t)
  end.

(** One node (single-byte tags only) and the children of a constructed
    node; [fuel] bounds the nesting. A primitive BIT STRING must start
    with an unused-bits count of at most 7. *)
Fixpoint parse_node (fuel : nat) (bs : bytes) : option (ber * bytes) :=
  match fuel with
  | O => None
  | S f =>
      match bs with
      | [] => None
      | t0 :: rest =>
          if Z.land t0 31 =? 31 then None else
          match parse_length rest with
          | None => None
          | Some (len, rest') =>
              let k := Z.to_nat len in
              if (List.length rest' <? k)%nat then None else
              let content := firstn k rest' in
              let after := skipn k rest' in
              if Z.testbit t0 5 then
                match parse_seq f content with
                | Some cs => Some (BCons t0 cs, after)
                | None => None
                end
              else if (t0 =? 3) && match content with u :: _ => 7 <? u | [] => true end
              then None
              else Some (BPrim t0 content, after)
          end
      end
  end
with parse_seq (fuel : nat) (bs : bytes) : option (list ber) :=
  match fuel with
  | O => None
  | S f =>
      match bs with
      | [] => Some []
      | _ =>
          match parse_node f bs with
          | Some (n, rest) => option_map (cons n) (parse_seq f rest)
          | None => None
          end
      end
  end.

(** [asn1js.fromBER(bytes).result], [None] when decoding fails. *)
Definition fromBER (bs : bytes) : option ber :=
  option_map fst (parse_node (S (List.length bs)) bs).

(** Whole-content decoding of the payload of a primitive BIT STRING or
    OCTET STRING, which asn1js stores in [valueBlock.value]. *)
Definition encapsulated (inner : bytes) : list ber :=
  match parse_node (S (List.length inner)) inner with
  | Some (n, []) => [n]
  | _ => []
  end.

(** [node.valueBlock.value]; [None] where the property is [undefined]. *)
Definition block_value (b : ber) : option (list ber) :=
  match b with
  | BCons _ cs => Some cs
  | BPrim t c =>
      if t =? 3 then
        Some (match c with 0 :: inner => encapsulated inner | _ => [] end)
      else if t =? 4 then Some (encapsulated c)
      else None
  end.

(** Two's complement value of INTEGER content bytes. *)
Definition twos_value (c : bytes) : Z :=
  if Z.land (hd 0 c) 128 =? 0 then be_value c
  else be_value c - 2 ^ (8 * Z.of_nat (List.length c)).

(** [node.toBigInt()]: defined on INTEGER and ENUMERATED nodes only. *)
Definition toBigInt (b : ber) : result Z :=
  match b with
  | BPrim t c =>
      if (t =? 2) || (t =? 10) then Ok (twos_value c)
      else Err (TypeError "toBigInt is not a function")
  | BCons _ _ => Err (TypeError "toBigInt is not a function")
  end.

Definition undefined_access {A : Type} : result A :=
  Err (TypeError "Cannot read properties of undefined").

Definition get_value (b : option ber) : result (list ber) :=
  match b with
  | Some n => match block_value n with Some vs => Ok vs | None => undefined_access end
  | None => undefined_access
  end.

Definition get_at (vs : list ber) (i : nat) : result ber :=
  match nth_error vs i with
  | Some v => Ok v
  | None => undefined_access
  end.

(** ** JWK records and the JWK <-> DER converters *)

Record JsonWebKey := mkJWK {
  kty : option string;
  alg : option string;
  jwk_n : option string;
  jwk_e : option string;
  jwk_d : option string;
  jwk_p : option string;
  jwk_q : option string;
  jwk_dp : option string;
  jwk_dq : option string;
  jwk_qi : option string
}.

(** [uint8ArrayToString(bnToBuf(v.toBigInt()), 'base64url')] *)
Definition ber_field (v : ber) : result string :=
  x <- toBigInt v ;; Ok (b64url_encode (bnToBuf x)).

Definition field_at (vs : list ber) (i : nat) : result string :=
  v <- get_at vs i ;; ber_field v.

(** [export function pkcs1ToJwk (bytes: Uint8Array): JsonWebKey] *)
Definition pkcs1ToJwk (bs : bytes) : result JsonWebKey :=
  values <- get_value (fromBER bs) ;;
  n <- field_at values 1 ;;
  e <- field_at values 2 ;;
  d <- field_at values 3 ;;
  p <- field_at values 4 ;;
  q <- field_at values 5 ;;
  dp <- field_at values 6 ;;
  dq <- field_at values 7 ;;
  qi <- field_at values 8 ;;
  Ok {| kty := Some "RSA"%string; alg := Some "RS256"%string;
        jwk_n := Some n; jwk_e := Some e; jwk_d := Some d; jwk_p := Some p;
        jwk_q := Some q; jwk_dp := Some dp; jwk_dq := Some dq; jwk_qi := Some qi |}.

(** [asn1js.Integer.fromBigInt(bufToBn(uint8ArrayFromString(s, 'base64url')))] *)
Definition jwk_integer (s : string) : result asn1 :=
  b <- b64url_decode s ;; x <- bufToBn b ;; Ok (Integer_fromBigInt x).

Definition missing_components {A : Type} : result A :=
  Err (InvalidParametersError "JWK was missing components").

(** [export function jwkToPkcs1 (jwk: JsonWebKey): Uint8Array] *)
Definition jwkToPkcs1 (jwk : JsonWebKey) : result bytes :=
  match jwk_n jwk, jwk_e jwk, jwk_d jwk, jwk_p jwk, jwk_q jwk, jwk_dp jwk, jwk_dq jwk, jwk_qi jwk with
  | Some n, Some e, Some d, Some p, Some q, Some dp, Some dq, Some qi =>
      i_n <- jwk_integer n ;;
      i_e <- jwk_integer e ;;
      i_d <- jwk_integer d ;;
      i_p <- jwk_integer p ;;
      i_q <- jwk_integer q ;;
      i_dp <- jwk_integer dp ;;
      i_dq <- jwk_integer dq ;;
      i_qi <- jwk_integer qi ;;
      Ok (toBER (ASequence [AInteger [0]; i_n; i_e; i_d; i_p; i_q; i_dp; i_dq; i_qi]))
  | _, _, _, _, _, _, _, _ => missing_components
  end.

(** [export function pkixToJwk (bytes: Uint8Array): JsonWebKey]:
    [result.valueBlock.value[1].valueBlock.value[0].valueBlock.value] *)
Definition pkixToJwk (bs : bytes) : result JsonWebKey :=
  outer <- get_value (fromBER bs) ;;
  bits <- get_at outer 1 ;;
  inner <- get_value (Some bits) ;;
  key <- get_at inner 0 ;;
  values <- get_value (Some key) ;;
  n <- field_at values 0 ;;
  e <- field_at values 1 ;;
  Ok {| kty := Some "RSA"%string; alg := None; jwk_n := Some n; jwk_e := Some e;
        jwk_d := None; jwk_p := None; jwk_q := None; jwk_dp := None; jwk_dq := None;
        jwk_qi := None |}.

(** rsaEncryption, 1.2.840.113549.1.1.1 *)
Definition rsaEncryption : list Z := [1; 2; 840; 113549; 1; 1; 1].

(** [export function jwkToPkix (jwk: JsonWebKey): Uint8Array] *)
Definition jwkToPkix (jwk : JsonWebKey) : result bytes :=
  match jwk_n jwk, jwk_e jwk with
  | Some n, Some e =>
      i_n <- jwk_integer n ;;
      i_e <- jwk_integer e ;;
      Ok (toBER (ASequence [ASequence [AObjectIdentifier rsaEncryption; ANull];
                            ABitString (toBER (ASequence [i_n; i_e]))]))
  | _, _ => missing_components
  end.

(** ** RSA key constructors and the key-size policy *)

Definition MAX_RSA_KEY_SIZE : Z := 8192.
Definition SHA2_256_CODE : Z := 18.

(** A [MultihashDigest]: [create(code, digest)] and [Digest.decode] build
    one. *)
Record Multihash := mkMultihash {
  mh_code : Z;
  mh_digest : bytes
}.

Definition create (code : Z) (digest : bytes) : Multihash := mkMultihash code digest.

(** [JWKKeyPair] *)
Record JWKKeyPair := mkJWKKeyPair {
  privateKey : JsonWebKey;
  publicKey : JsonWebKey
}.

(** The objects [new RSAPublicKeyClass(jwk, digest)] and
    [new RSAPrivateKeyClass(jwk, publicKey)] build. *)
Record RSAPublicKey := mkRSAPublicKey {
  rsa_pub_jwk : JsonWebKey;
  rsa_pub_digest : Multihash
}.

Record RSAPrivateKey := mkRSAPrivateKey {
  rsa_priv_jwk : JsonWebKey;
  rsa_priv_public : RSAPublicKey
}.

(** What the key constructors hand to the collaborators they call, in
    order: the key generator, the protobuf encoder of [pb.PublicKey] and the
    sha2-256 hash. A run of a constructor returns its trace of these calls
    together with its result. *)
Inductive event : Type :=
| CallGenerateRSAKey (bits : Z)
| CallPublicKeyEncode (data : bytes)
| CallSha256 (data : bytes).

Definition traced (A : Type) : Type := (list event * result A)%type.

Definition tret {A : Type} (a : A) : traced A := ([], Ok a).
Definition tlift {A : Type} (r : result A) : traced A := ([], r).
Definition tcall (ev : event) : traced unit := ([ev], Ok tt).

Definition tbind {A B : Type} (m : traced A) (k : A -> traced B) : traced B :=
  match m with
  | (t, Ok a) => let '(t', r) := k a in (t ++ t', r)
  | (t, Err e) => (t, Err e)
  end.

Notation "x <-- m ;; k" := (tbind m (fun x => k))
  (at level 61, m at next level, right associativity).

(** The collaborators of [utils.ts] that live in other modules:
    [rsaKeySize] and [generateRSAKey] of [./index.js], [sha256] of
    [@noble/hashes] and the protobuf encoder [pb.PublicKey.encode] applied to
    [{ Type: pb.KeyType.RSA, Data }]. *)
Class RsaDeps := {
  rsaKeySize : JsonWebKey -> result Z;
  generateRSAKey : Z -> result JWKKeyPair;
  sha256 : bytes -> bytes;
  encodeRSAPublicKey : bytes -> bytes
}.

Section RsaKeys.
Context `{RsaDeps}.

(** [jwkToJWKKeyPair(key)]: the record is never [null] here. *)
Definition jwkToJWKKeyPair (key : JsonWebKey) : JWKKeyPair :=
  {| privateKey := key;
     publicKey := {| kty := kty key; alg := None; jwk_n := jwk_n key; jwk_e := jwk_e key;
                     jwk_d := None; jwk_p := None; jwk_q := None; jwk_dp := None;
                     jwk_dq := None; jwk_qi := None |} |}.

(** [sha256(pb.PublicKey.encode({ Type: pb.KeyType.RSA, Data: data }))] *)
Definition fingerprint (data : bytes) : traced bytes :=
  let encoded := encodeRSAPublicKey data in
  _ <-- tcall (CallPublicKeyEncode data) ;;
  _ <-- tcall (CallSha256 encoded) ;;
  tret (sha256 encoded).

(** [export function pkixToRSAPublicKey (bytes: Uint8Array): RSAPublicKey] *)
Definition pkixToRSAPublicKey (bs : bytes) : traced RSAPublicKey :=
  jwk <-- tlift (pkixToJwk bs) ;;
  size <-- tlift (rsaKeySize jwk) ;;
  if MAX_RSA_KEY_SIZE <? size then tlift (Err (InvalidPublicKeyError "Key size is too large"))
  else
    hash <-- fingerprint bs ;;
    tret (mkRSAPublicKey jwk (create SHA2_256_CODE hash)).

(** [export function jwkToRSAPrivateKey (jwk: JsonWebKey): RSAPrivateKey] *)
Definition jwkToRSAPrivateKey (jwk : JsonWebKey) : traced RSAPrivateKey :=
  size <-- tlift (rsaKeySize jwk) ;;
  if MAX_RSA_KEY_SIZE <? size then tlift (Err (InvalidParametersError "Key size is too large"))
  else
    let keys := jwkToJWKKeyPair jwk in
    pkix <-- tlift (jwkToPkix (publicKey keys)) ;;
    hash <-- fingerprint pkix ;;
    tret (mkRSAPrivateKey (privateKey keys)
            (mkRSAPublicKey (publicKey keys) (create SHA2_256_CODE hash))).

(** [export function pkcs1ToRSAPrivateKey (bytes: Uint8Array): RSAPrivateKey] *)
Definition pkcs1ToRSAPrivateKey (bs : bytes) : traced RSAPrivateKey :=
  jwk <-- tlift (pkcs1ToJwk bs) ;;
  jwkToRSAPrivateKey jwk.

(** [export async function generateRSAKeyPair (bits: number)]; the
    rejected promise is the [Err] branch. *)
Definition generateRSAKeyPair (bits : Z) : traced RSAPrivateKey :=
  if MAX_RSA_KEY_SIZE <? bits then tlift (Err (InvalidParametersError "Key size is too large"))
  else
    _ <-- tcall (CallGenerateRSAKey bits) ;;
    keys <-- tlift (generateRSAKey bits) ;;
    pkix <-- tlift (jwkToPkix (publicKey keys)) ;;
    hash <-- fingerprint pkix ;;
    tret (mkRSAPrivateKey (privateKey keys)
            (mkRSAPublicKey (publicKey keys) (create SHA2_256_CODE hash))).

End RsaKeys.

(** ** Peer ids: [peerIdFromString], [peerIdFromPublicKey],
    [peerIdFromMultihash], [peerIdFromCID] *)

Definition LIBP2P_KEY_CODE : Z := 114.
Definition TRANSPORT_IPFS_GATEWAY_HTTP_CODE : Z := 2336.
Definition IDENTITY_CODE : Z := 0.

(** A [CID] value as [peerIdFromCID] reads it: [cid.version] and
    [cid.multihash] may be missing ([== null]). *)
Record CID := mkCID {
  cid_version : option Z;
  cid_code : Z;
  cid_multihash : option Multihash
}.

(** The part of the [PublicKey] interface the peer-id functions use:
    [publicKey.type] and [publicKey.toCID().multihash], with the key's
    encoding to tell keys apart. *)
Record PublicKey := mkPublicKey {
  pk_type : string;
  pk_cid_multihash : Multihash;
  pk_raw : bytes
}.

(** A parsed [URL]: [href] is the serialisation. *)
Record URL := mkURL { href : string }.

(** Modelled from the spec: the four peer-id classes of [./peer-id.js]
    (absent here). Each holds the multihash it was built from and the public
    key it was given: [Ed25519PeerId] and [Secp256k1PeerId] always get one,
    [RSAPeerId] only when it is constructed from a known key; [URLPeerId]
    holds the URL. *)
Inductive PeerId : Type :=
| Ed25519PeerId (multihash : Multihash) (publicKey : PublicKey)
| Secp256k1PeerId (multihash : Multihash) (publicKey : PublicKey)
| RSAPeerId (multihash : Multihash) (publicKey : option PublicKey)
| URLPeerId (url : URL).

(** The collaborators of the peer-id module: [base58btc.decode],
    [Digest.decode], [CID.decode], [publicKeyFromMultihash],
    [uint8ArrayToString] (UTF-8) and the [URL] constructor, which throws a
    [TypeError] on a string it cannot parse. *)
Class PeerIdDeps := {
  base58btc_decode : string -> result bytes;
  digest_decode : bytes -> result Multihash;
  cid_decode : bytes -> result CID;
  publicKeyFromMultihash : Multihash -> result PublicKey;
  uint8ArrayToString : bytes -> string;
  new_URL : string -> result URL
}.

Definition dquote : string := String (ascii_of_nat 34) EmptyString.

Definition missing_decoder_message : string :=
  "Please pass a multibase decoder for strings that do not start with " ++ dquote ++ "1" ++ dquote ++
  " or " ++ dquote ++ "Q" ++ dquote.

Section PeerIds.
Context `{PeerIdDeps}.

Definition isIdentityMultihash (mh : Multihash) : bool := mh_code mh =? IDENTITY_CODE.
Definition isSha256Multihash (mh : Multihash) : bool := mh_code mh =? SHA2_256_CODE.

(** [new URLPeerIdClass(new URL(uint8ArrayToString(digest)))] *)
Definition url_peer (digest : bytes) : result PeerId :=
  url <- new_URL (uint8ArrayToString digest) ;; Ok (URLPeerId url).

(** [export function peerIdFromMultihash (multihash: MultihashDigest): PeerId] *)
Definition peerIdFromMultihash (mh : Multihash) : result PeerId :=
  if isSha256Multihash mh then Ok (RSAPeerId mh None)
  else if isIdentityMultihash mh then
    match publicKeyFromMultihash mh with
    | Ok pk =>
        if String.eqb (pk_type pk) "Ed25519" then Ok (Ed25519PeerId mh pk)
        else if String.eqb (pk_type pk) "secp256k1" then Ok (Secp256k1PeerId mh pk)
        else Err (InvalidMultihashError "Supplied PeerID Multihash is invalid")
    | Err _ => url_peer (mh_digest mh)
    end
  else Err (InvalidMultihashError "Supplied PeerID Multihash is invalid").

(** [export function peerIdFromCID (cid: CID)] *)
Definition peerIdFromCID (cid : CID) : result PeerId :=
  match cid_multihash cid, cid_version cid with
  | Some mh, Some version =>
      if (version =? 1) && negb (cid_code cid =? LIBP2P_KEY_CODE) &&
         negb (cid_code cid =? TRANSPORT_IPFS_GATEWAY_HTTP_CODE)
      then Err (InvalidCIDError "Supplied PeerID CID is invalid")
      else if cid_code cid =? TRANSPORT_IPFS_GATEWAY_HTTP_CODE then url_peer (mh_digest mh)
      else peerIdFromMultihash mh
  | _, _ => Err (InvalidCIDError "Supplied PeerID CID is invalid")
  end.

(** [export function peerIdFromPublicKey (publicKey: PublicKey): PeerId] *)
Definition peerIdFromPublicKey (pk : PublicKey) : result PeerId :=
  if String.eqb (pk_type pk) "Ed25519" then Ok (Ed25519PeerId (pk_cid_multihash pk) pk)
  else if String.eqb (pk_type pk) "secp256k1" then Ok (Secp256k1PeerId (pk_cid_multihash pk) pk)
  else if String.eqb (pk_type pk) "RSA" then Ok (RSAPeerId (pk_cid_multihash pk) (Some pk))
  else Err UnsupportedKeyTypeError.

(** [str.charAt(0)]: the empty string for an empty [str]. *)
Definition charAt0 (s : string) : string :=
  match s with
  | String c _ => String c EmptyString
  | EmptyString => EmptyString
  end.

(** [export function peerIdFromString (str: string, decoder?: MultibaseDecoder<any>)] *)
Definition peerIdFromString (str : string) (decoder : option (string -> result bytes))
  : result PeerId :=
  if String.eqb (charAt0 str) "1" || String.eqb (charAt0 str) "Q" then
    b <- base58btc_decode ("z" ++ str) ;;
    mh <- digest_decode b ;;
    peerIdFromMultihash mh
  else
    match decoder with
    | None => Err (InvalidParametersError missing_decoder_message)
    | Some decode =>
        match decode str with
        | Err _ => Err (InvalidParametersError
                          "The passed PeerID string could not be decoded using the provided multibase decoder")
        | Ok buf =>
            match (mh <- digest_decode buf ;; peerIdFromMultihash mh) with
            | Ok p => Ok p
            | Err _ => cid <- cid_decode buf ;; peerIdFromCID cid
            end
        end
    end.

End PeerIds.

(** ** The WebRTC-direct transport: [dial] and [_connect]

    [_connect] is the caller of [peerIdFromString] in the transport; it
    passes no multibase decoder. *)

(** The errors [_connect] throws: [inappropriateMultiaddr(...)] of
    [../error.js], or one of the errors of the functions it calls. *)
Inductive rtc_error : Type :=
| InappropriateMultiaddr (msg : string)
| RtcError (e : error).

(** What [_connect] does to the collaborators with an effect: it creates
    the dialer peer connection for a ufrag, runs [connect] on it (with the
    ufrag as both local and remote ufrag, the certhash's hash code and the
    remote peer id), and closes it. *)
Inductive rtc_event {PeerConnection : Type} : Type :=
| CallCreateDialerRTCPeerConnection (ufrag : string)
| CallConnect (pc : PeerConnection) (ufrag : string) (hashCode : Z) (remotePeerId : PeerId)
| CallClose (pc : PeerConnection).
Arguments rtc_event : clear implicits.

(** The collaborators of [_connect]: [ma.getPeerId()], [sdp.certhash],
    [sdp.decodeCerthash], [genUfrag], [UFRAG_PREFIX] of [./constants.js],
    [createDialerRTCPeerConnection('NodeA', ufrag, rtcConfiguration)] and
    [raceSignal(connect(peerConnection, ufrag, ufrag, { remoteAddr: ma,
    hashCode, remotePeerId, ... }), options.signal)]. *)
Class WebRTCDirectDeps (Multiaddr PeerConnection Connection : Type) := {
  getPeerId : Multiaddr -> option string;
  sdp_certhash : Multiaddr -> result string;
  decodeCerthash : string -> result Multihash;
  genUfrag : Z -> string;
  UFRAG_PREFIX : string;
  createDialerRTCPeerConnection : string -> result PeerConnection;
  rtc_connect : PeerConnection -> string -> Multiaddr -> Z -> PeerId -> result Connection
}.

Section WebRTCDirect.
Context `{PeerIdDeps}.
Context {Multiaddr PeerConnection Connection : Type}.
Context `{WebRTCDirectDeps Multiaddr PeerConnection Connection}.

(** [async _connect (ma: Multiaddr, options: DialOptions): Promise<Connection>] *)
Definition _connect (ma : Multiaddr)
  : list (rtc_event PeerConnection) * (Connection + rtc_error) :=
  match getPeerId ma with
  | None => ([], inr (InappropriateMultiaddr "we need to have the remote's PeerId"))
  | Some remotePeerString =>
      match peerIdFromString remotePeerString None with
      | Err e => ([], inr (RtcError e))
      | Ok theirPeerId =>
          match bind_r (sdp_certhash ma) decodeCerthash with
          | Err e => ([], inr (RtcError e))
          | Ok remoteCerthash =>
              let ufrag := (UFRAG_PREFIX ++ genUfrag 32)%string in
              match createDialerRTCPeerConnection ufrag with
              | Err e => ([CallCreateDialerRTCPeerConnection ufrag], inr (RtcError e))
              | Ok peerConnection =>
                  let call := CallConnect peerConnection ufrag (mh_code remoteCerthash) theirPeerId in
                  match rtc_connect peerConnection ufrag ma (mh_code remoteCerthash) theirPeerId with
                  | Ok conn => ([CallCreateDialerRTCPeerConnection ufrag; call], inl conn)
                  | Err e => ([CallCreateDialerRTCPeerConnection ufrag; call; CallClose peerConnection],
                              inr (RtcError e))
                  end
              end
          end
      end
  end.


End WebRTCDirect.

(** ** Sample collaborators

    Concrete instances of the collaborators, used to run the functions above
    on concrete inputs: a base58btc multibase decoder, the unsigned-varint
    multihash decoder of multiformats, a CIDv1 decoder, a protobuf
    [PublicKey] reader for [publicKeyFromMultihash], a UTF-8 decoder exact
    on ASCII bytes, and a [URL] parser that, as the WHATWG parser does,
    strips leading and trailing C0 controls and spaces and rejects an input
    without a scheme ([ALPHA *( ALPHA / DIGIT / + / - / . ) :]). *)
Module Samples.

Definition b58_alphabet : list ascii :=
  list_ascii_of_string "123456789ABCDEFGHJKLMNPQRSTUVWXYZabcdefghijkmnopqrstuvwxyz".

Fixpoint index_of (c : ascii) (l : list ascii) (i : Z) : option Z :=
  match l with
  | [] => None
  | x :: t => if Ascii.eqb x c then Some i else index_of c t (i + 1)
  end.

Fixpoint b58_value (cs : list ascii) (acc : Z) : result Z :=
  match cs with
  | [] => Ok acc
  | c :: t =>
      match index_of c b58_alphabet 0 with
      | Some d => b58_value t (acc * 58 + d)
      | None => Err (JsError "Non-base58btc character")
      end
  end.

Fixpoint leading_ones (cs : list ascii) : nat :=
  match cs with
  | "1"%char :: t => S (leading_ones t)
  | _ => O
  end.

(** Minimal big-endian bytes of [v > 0]; [[]] for [0]. *)
Fixpoint be_bytes (fuel : nat) (v : Z) (acc : bytes) : bytes :=
  match fuel with
  | O => acc
  | S f => if v =? 0 then acc else be_bytes f (v / 256) (v mod 256 :: acc)
  end.

Definition base58_decode (cs : list ascii) : result bytes :=
  v <- b58_value cs 0 ;;
  Ok (repeat 0 (leading_ones cs) ++ be_bytes (List.length cs) v []).

(** [base58btc.decode]: the multibase prefix [z], then the digits. *)
Definition multibase_base58btc (s : string) : result bytes :=
  match list_ascii_of_string s with
  | "z"%char :: cs => base58_decode cs
  | _ => Err (JsError "Unable to decode multibase string, base58btc decoder only supports inputs prefixed with z")
  end.

(** An unsigned LEB128 varint: the value and the bytes after it. *)
Fixpoint varint_decode (bs : bytes) (shift : Z) : option (Z * bytes) :=
  match bs with
  | [] => None
  | b :: t =>
      if b <? 128 then Some (Z.shiftl b shift, t)
      else match varint_decode t (shift + 7) with
           | Some (v, r) => Some (Z.lor (Z.shiftl (b - 128) shift) v, r)
           | None => None
           end
  end.

(** [Digest.decode]: code, size, and a digest of exactly [size] bytes. *)
Definition digest_decode_varint (bs : bytes) : result Multihash :=
  match varint_decode bs 0 with
  | Some (code, r) =>
      match varint_decode r 0 with
      | Some (size, digest) =>
          if Z.of_nat (List.length digest) =? size then Ok (mkMultihash code digest)
          else Err (JsError "Incorrect length")
      | None => Err (JsError "Could not decode varint")
      end
  | None => Err (JsError "Could not decode varint")
  end.

(** [CID.decode] of a CIDv1: version, codec, multihash. *)
Definition cid_decode_v1 (bs : bytes) : result CID :=
  match varint_decode bs 0 with
  | Some (1, r) =>
      match varint_decode r 0 with
      | Some (code, r') => mh <- digest_decode_varint r' ;; Ok (mkCID (Some 1) code (Some mh))
      | None => Err (JsError "Could not decode varint")
      end
  | _ => Err (JsError "Invalid CID version")
  end.

(** [publicKey_from_protobuf]: the identity digest is a protobuf
    [PublicKey { Type = 1; Data = 2 }] with [KeyType] RSA 0, Ed25519 1,
    secp256k1 2. *)
Definition publicKey_from_protobuf (mh : Multihash) : result PublicKey :=
  match mh_digest mh with
  | 8 :: t :: 18 :: len :: data =>
      if (len <? 128) && (Z.of_nat (List.length data) =? len) then
        if (t =? 1) && (len =? 32) then Ok (mkPublicKey "Ed25519" mh data)
        else if (t =? 2) && (len =? 33) then Ok (mkPublicKey "secp256k1" mh data)
        else if t =? 0 then Ok (mkPublicKey "RSA" mh data)
        else Err UnsupportedKeyTypeError
      else Err (JsError "invalid wire type")
  | _ => Err (JsError "invalid wire type")
  end.

Definition ascii_toString (bs : bytes) : string :=
  string_of_list_ascii (map (fun b => ascii_of_N (Z.to_N b)) bs).

Definition c0_or_space (c : ascii) : bool := (N_of_ascii c <=? 32)%N.

Fixpoint strip_leading (cs : list ascii) : list ascii :=
  match cs with
  | c :: t => if c0_or_space c then strip_leading t else cs
  | [] => []
  end.

Definition is_alpha (c : ascii) : bool :=
  let n := N_of_ascii c in ((65 <=? n) && (n <=? 90) || (97 <=? n) && (n <=? 122))%N.

Definition is_scheme_char (c : ascii) : bool :=
  let n := N_of_ascii c in
  is_alpha c || ((48 <=? n) && (n <=? 57))%N || Ascii.eqb c "+" || Ascii.eqb c "-" ||
  Ascii.eqb c ".".

Fixpoint scheme_rest (cs : list ascii) : bool :=
  match cs with
  | [] => false
  | c :: t => if Ascii.eqb c ":" then true else is_scheme_char c && scheme_rest t
  end.

Definition parse_URL (s : string) : result URL :=
  let cs := rev (strip_leading (rev (strip_leading (list_ascii_of_string s)))) in
  match cs with
  | c :: t => if is_alpha c && scheme_rest t then Ok (mkURL (string_of_list_ascii cs))
              else Err (TypeError "Invalid URL")
  | [] => Err (TypeError "Invalid URL")
  end.

Definition peer_deps : PeerIdDeps := {|
  base58btc_decode := multibase_base58btc;
  digest_decode := digest_decode_varint;
  cid_decode := cid_decode_v1;
  publicKeyFromMultihash := publicKey_from_protobuf;
  uint8ArrayToString := ascii_toString;
  new_URL := parse_URL
|}.

End Samples.

(** Stand-ins for the RSA collaborators, used only to run the key
    constructors on concrete inputs: [rsaKeySize] as [./index.js] computes
    it (eight bits per byte of the base64url modulus, after the [kty] and
    [n] checks), a generator that returns one fixed key pair, the protobuf
    encoding of [{ Type: RSA, Data }] and, in place of sha2-256, the
    identity. *)
Module RsaSamples.

Definition rsa_key_size (jwk : JsonWebKey) : result Z :=
  match kty jwk with
  | Some t =>
      if String.eqb t "RSA" then
        match jwk_n jwk with
        | Some n => b <- b64url_decode n ;; Ok (8 * Z.of_nat (List.length b))
        | None => Err (InvalidParametersError "invalid key modulus")
        end
      else Err (InvalidParametersError "invalid key type")
  | None => Err (InvalidParametersError "invalid key type")
  end.

Definition fixed_key : JsonWebKey :=
  {| kty := Some "RSA"%string; alg := Some "RS256"%string; jwk_n := Some "AQAB"%string;
     jwk_e := Some "AQ"%string; jwk_d := Some "Ag"%string; jwk_p := Some "Aw"%string;
     jwk_q := Some "BA"%string; jwk_dp := Some "BQ"%string; jwk_dq := Some "Bg"%string;
     jwk_qi := Some "Bw"%string |}.

Definition fixed_generator (bits : Z) : result JWKKeyPair := Ok (jwkToJWKKeyPair fixed_key).

Fixpoint varint_encode (fuel : nat) (v : Z) : bytes :=
  match fuel with
  | O => []
  | S f => if v <? 128 then [v] else (v mod 128 + 128) :: varint_encode f (v / 128)
  end.

Definition encode_rsa_public_key (data : bytes) : bytes :=
  [8; 0; 18] ++ varint_encode 10 (Z.of_nat (List.length data)) ++ data.

Definition rsa_deps : RsaDeps := {|
  rsaKeySize := rsa_key_size;
  generateRSAKey := fixed_generator;
  sha256 := fun b => b;
  encodeRSAPublicKey := encode_rsa_public_key
|}.

End RsaSamples.

(** Stand-ins for the collaborators of the WebRTC-direct transport, used
    only to run [_connect] on concrete inputs: a multiaddr is its peer-id
    string, its certhash and whether the handshake succeeds; the certhash
    decodes as a multihash with the unsigned-varint decoder. *)
Module RtcSamples.

Record sample_ma := mkSampleMa {
  ma_peer : option string;
  ma_certhash : result bytes;
  ma_handshake_ok : bool
}.

Definition rtc_deps : WebRTCDirectDeps sample_ma nat string := {|
  getPeerId := ma_peer;
  sdp_certhash := fun ma => bind_r (ma_certhash ma) (fun b => Ok (Samples.ascii_toString b));
  decodeCerthash := fun s => Samples.digest_decode_varint
                               (map (fun c => Z.of_N (N_of_ascii c)) (list_ascii_of_string s));
  genUfrag := fun _ => "abcd"%string;
  UFRAG_PREFIX := "libp2p+webrtc+v1/";
  createDialerRTCPeerConnection := fun _ => Ok 7%nat;
  rtc_connect := fun _ _ ma _ _ =>
    if ma_handshake_ok ma then Ok "connection"%string else Err (JsError "handshake timed out")
|}.

End RtcSamples.

(** ** Definitions used by the statements and proofs below *)

Definition zrange (k : nat) : list Z := map Z.of_nat (seq 0 k).

Definition ascii_list_eqb (l1 l2 : list ascii) : bool :=
  String.eqb (string_of_list_ascii l1) (string_of_list_ascii l2).

Definition digit_step (a d : Z) : Z := a * 16 + d.

Definition digits_value (ds : list Z) : Z := fold_left digit_step ds 0.

Definition digits_ok (ds : list Z) : Prop := Forall (fun d => 0 <= d < 16) ds.

Fixpoint pair_bytes (ds : list Z) : bytes :=
  match ds with
  | a :: b :: t => (a * 16 + b) :: pair_bytes t
  | _ => []
  end.

(** A JWK field that survives the byte-level normalisation: its base64url
    bytes, read as an integer and written back by [bnToBuf] and base64url,
    give the same string (no leading zero byte, canonical characters), and
    the integer has fewer than 2^48 bytes. *)
Definition canonical_field (f : string) : bool :=
  match b64url_decode f with
  | Ok b =>
      match bufToBn b with
      | Ok x => (Z.of_nat (List.length (bnToBuf x)) <? 2 ^ 48) &&
                String.eqb (b64url_encode (bnToBuf x)) f
      | Err _ => false
      end
  | Err _ => false
  end.

(** The eight private components of a JWK, when all are present. *)
Definition private_fields (k : JsonWebKey) : option (list string) :=
  match jwk_n k, jwk_e k, jwk_d k, jwk_p k, jwk_q k, jwk_dp k, jwk_dq k, jwk_qi k with
  | Some n, Some e, Some d, Some p, Some q, Some dp, Some dq, Some qi =>
      Some [n; e; d; p; q; dp; dq; qi]
  | _, _, _, _, _, _, _, _ => None
  end.

Definition canonical_private_jwk (k : JsonWebKey) : bool :=
  match private_fields k with
  | Some fs => forallb canonical_field fs
  | None => false
  end.

(** Two hex digits per byte, high digit first. *)
Definition byte_digits (b : bytes) : list Z := concat (map (fun x => [x / 16; x mod 16]) b).

(** A byte array without its leading zero bytes. *)
Fixpoint strip_zeros (b : bytes) : bytes :=
  match b with
  | Z0 :: t => strip_zeros t
  | _ => b
  end.

(** The minimal big-endian form of the value of [b]: [b] without leading
    zero bytes, or [[0]] when nothing is left. *)
Definition minimal_bytes (b : bytes) : bytes :=
  match strip_zeros b with
  | [] => [0]
  | c => c
  end.

(** [enc ++ rest] decodes to the node [n] followed by [rest], with any
    nesting budget of at least [d]. *)
Definition parses_as (d : nat) (enc : bytes) (n : ber) : Prop :=
  forall g rest, (d <= g)%nat -> parse_node (S g) (enc ++ rest) = Some (n, rest).

(** The public part of a JWK as [pkixToJwk] returns it. *)
Definition public_jwk (n e : string) : JsonWebKey :=
  {| kty := Some "RSA"%string; alg := None; jwk_n := Some n; jwk_e := Some e;
     jwk_d := None; jwk_p := None; jwk_q := None; jwk_dp := None; jwk_dq := None;
     jwk_qi := None |}.

(** ** Sample inputs *)

(** A version-0 CID (codec dag-pb [0x70], sha2-256 multihash) of the
    legacy [Qm...] form. *)
Definition sample_v0_multihash : Multihash :=
  mkMultihash 18 [157; 255; 59; 23; 215; 76; 244; 211; 138; 80; 216; 182; 56; 62; 146; 209;
                  129; 161; 3; 149; 165; 231; 58; 114; 109; 204; 203; 210; 27; 246; 240; 185].

Definition sample_v0_cid : CID := mkCID (Some 0) 112 (Some sample_v0_multihash).

Definition sample_rsa_key : PublicKey :=
  mkPublicKey "RSA" (mkMultihash 18 (repeat 7 32)) [48; 3; 2; 1; 3].

(** The identity multihash of the single byte [0x00]: no protobuf key, and
    the string ["\u0000"] is no URL. *)
Definition sample_nul_multihash : Multihash := mkMultihash 0 [0].

Definition sample_rsa_peer_rest : string := "mYyQSo1c1Ym7orWxLYvCrM2EmxFTANf8wXmmE7DWjhx5N".

Definition sample_rsa_peer_bytes : bytes := [18; 32] ++ mh_digest sample_v0_multihash.

Definition sample_empty_url_cid : CID :=
  mkCID (Some 1) TRANSPORT_IPFS_GATEWAY_HTTP_CODE (Some (mkMultihash 0 [])).

(** The bytes of ["https://example.com"]. *)
Definition example_com_bytes : bytes :=
  map (fun c => Z.of_N (N_of_ascii c)) (list_ascii_of_string "https://example.com").

Definition sample_example_com_cid : CID :=
  mkCID (Some 1) TRANSPORT_IPFS_GATEWAY_HTTP_CODE (Some (mkMultihash 0 example_com_bytes)).

Definition sample_jwk_no_alg : JsonWebKey :=
  {| kty := Some "RSA"%string; alg := None; jwk_n := Some "AQAB"%string; jwk_e := Some "AQ"%string;
     jwk_d := Some "Ag"%string; jwk_p := Some "Aw"%string; jwk_q := Some "BA"%string;
     jwk_dp := Some "BQ"%string; jwk_dq := Some "Bg"%string; jwk_qi := Some "Bw"%string |}.

Definition sample_jwk_leading_zero : JsonWebKey :=
  {| kty := Some "RSA"%string; alg := Some "RS256"%string; jwk_n := Some "AAE"%string;
     jwk_e := Some "AQ"%string; jwk_d := Some "Ag"%string; jwk_p := Some "Aw"%string;
     jwk_q := Some "BA"%string; jwk_dp := Some "BQ"%string; jwk_dq := Some "Bg"%string;
     jwk_qi := Some "Bw"%string |}.

Definition sample_jwk : JsonWebKey :=
  {| kty := Some "RSA"%string; alg := Some "RS256"%string; jwk_n := Some "AQAB"%string;
     jwk_e := Some "AQ"%string; jwk_d := Some "Ag"%string; jwk_p := Some "Aw"%string;
     jwk_q := Some "BA"%string; jwk_dp := Some "BQ"%string; jwk_dq := Some "Bg"%string;
     jwk_qi := Some "Bw"%string |}.

Definition sample_ed25519_multihash : Multihash :=
  mkMultihash 0 ([8; 1; 18; 32] ++ repeat 1 32).

Definition sample_ed25519_key : PublicKey :=
  mkPublicKey "Ed25519" sample_ed25519_multihash (repeat 1 32).

(** * Proofs *)

(** ** Finite checks over small ranges of integers *)

Lemma zrange_forallb (k : nat) (P : Z -> bool) :
  forallb P (zrange k) = true -> forall x, 0 <= x < Z.of_nat k -> P x = true.
Proof.
  intros H x Hx. rewrite forallb_forall in H. apply H.
  unfold zrange. apply in_map_iff. exists (Z.to_nat x). split; [lia|].
  apply in_seq. lia.
Qed.

Lemma ascii_list_eqb_eq l1 l2 : ascii_list_eqb l1 l2 = true -> l1 = l2.
Proof.
  unfold ascii_list_eqb. rewrite String.eqb_eq. intros H.
  rewrite <- (list_ascii_of_string_of_list_ascii l1), H.
  apply list_ascii_of_string_of_list_ascii.
Qed.

Lemma hex_digit_char d : 0 <= d < 16 -> hex_digit (hex_char d) = Some d.
Proof.
  intros Hd.
  assert (Hc : forallb (fun d => match hex_digit (hex_char d) with
                                 | Some d' => d' =? d | None => false end)
                       (zrange 16) = true) by (vm_compute; reflexivity).
  specialize (zrange_forallb _ _ Hc d Hd). cbv beta.
  destruct (hex_digit (hex_char d)) as [d'|]; [|discriminate].
  rewrite Z.eqb_eq. intros ->. reflexivity.
Qed.

Lemma parseInt16_pair a b : 0 <= a < 16 -> 0 <= b < 16 ->
  parseInt16 [hex_char a; hex_char b] = Some (a * 16 + b).
Proof.
  intros Ha Hb.
  assert (Hc : forallb (fun a => forallb (fun b =>
                 match parseInt16 [hex_char a; hex_char b] with
                 | Some v => v =? a * 16 + b | None => false end) (zrange 16))
                 (zrange 16) = true) by (vm_compute; reflexivity).
  specialize (zrange_forallb _ _ Hc a Ha). cbv beta. intros Hb'.
  specialize (zrange_forallb _ _ Hb' b Hb). cbv beta.
  destruct (parseInt16 _) as [v|]; [|discriminate].
  rewrite Z.eqb_eq. intros ->. reflexivity.
Qed.

Lemma byte_hex_spec x : 0 <= x < 256 ->
  pad_even (to_string16 x) = [hex_char (x / 16); hex_char (x mod 16)].
Proof.
  intros Hx.
  assert (Hc : forallb (fun x => ascii_list_eqb (pad_even (to_string16 x))
                                   [hex_char (x / 16); hex_char (x mod 16)])
                       (zrange 256) = true) by (vm_compute; reflexivity).
  apply ascii_list_eqb_eq. exact (zrange_forallb _ _ Hc x Hx).
Qed.

(** ** Hex digit lists *)

Lemma even_pairs_ind (P : list Z -> Prop) :
  P [] -> (forall a b t, P t -> P (a :: b :: t)) ->
  forall l, Nat.even (List.length l) = true -> P l.
Proof.
  intros H0 H2. fix IH 1. intros [|a [|b t]] He.
  - exact H0.
  - discriminate He.
  - apply H2. apply IH. exact He.
Qed.

Lemma to_hex_aux_S f n acc :
  to_hex_aux (S f) n acc =
  if n <? 16 then hex_char n :: acc else to_hex_aux f (n / 16) (hex_char (n mod 16) :: acc).
Proof. reflexivity. Qed.

Lemma to_hex_aux_spec f : forall n acc, 0 <= n < 16 ^ Z.of_nat (S f) ->
  exists ds, to_hex_aux (S f) n acc = map hex_char ds ++ acc /\ digits_ok ds /\
             ds <> [] /\ digits_value ds = n.
Proof.
  induction f as [|f IH]; intros n acc Hn.
  - exists [n]. rewrite to_hex_aux_S. replace (n <? 16) with true by (symmetry; apply Z.ltb_lt; simpl in Hn; lia).
    repeat split; [repeat constructor; lia | discriminate].
  - rewrite to_hex_aux_S. destruct (n <? 16) eqn:E.
    + apply Z.ltb_lt in E. exists [n]. repeat split; [repeat constructor; lia | discriminate].
    + apply Z.ltb_ge in E.
      assert (Hq : 0 <= n / 16 < 16 ^ Z.of_nat (S f)).
      { split; [apply Z.div_pos; lia|].
        apply Z.div_lt_upper_bound; [lia|].
        replace (Z.of_nat (S (S f))) with (Z.succ (Z.of_nat (S f))) in Hn by lia.
        rewrite Z.pow_succ_r in Hn by lia. lia. }
      destruct (IH (n / 16) (hex_char (n mod 16) :: acc) Hq) as (ds & Heq & Hok & Hne & Hv).
      exists (ds ++ [n mod 16]). rewrite Heq. split.
      * rewrite map_app, <- app_assoc. reflexivity.
      * split; [|split].
        -- apply Forall_app; split; [exact Hok|]. constructor; [apply Z.mod_pos_bound; lia | constructor].
        -- destruct ds; [contradiction | discriminate].
        -- unfold digits_value in *. rewrite fold_left_app, Hv. cbn.
           unfold digit_step. pose proof (Z.div_mod n 16). lia.
Qed.

Lemma to_string16_spec n : 0 <= n ->
  exists ds, to_string16 n = map hex_char ds /\ digits_ok ds /\ ds <> [] /\ digits_value ds = n.
Proof.
  intros Hn. unfold to_string16.
  replace (n <? 0) with false by (symmetry; apply Z.ltb_ge; lia).
  destruct (to_hex_aux_spec (Z.to_nat (Z.log2 n)) n [] ) as (ds & H & Hok & Hne & Hv).
  - split; [exact Hn|].
    rewrite Nat2Z.inj_succ, Z2Nat.id by apply Z.log2_nonneg.
    destruct (Z.eq_dec n 0) as [->|Hn0]; [reflexivity|].
    apply Z.lt_le_trans with (2 ^ Z.succ (Z.log2 n)).
    + apply Z.log2_spec. lia.
    + replace 16 with (2 ^ 4) by reflexivity. rewrite <- Z.pow_mul_r by (pose proof (Z.log2_nonneg n); lia).
      apply Z.pow_le_mono_r; pose proof (Z.log2_nonneg n); lia.
  - exists ds. rewrite app_nil_r in H. auto.
Qed.

Lemma bnToBuf_digits n : 0 <= n ->
  exists ds, bnToBuf n = pair_bytes ds /\ digits_ok ds /\ Nat.even (List.length ds) = true /\
             ds <> [] /\ digits_value ds = n.
Proof.
  intros Hn. destruct (to_string16_spec n Hn) as (ds & H & Hok & Hne & Hv).
  unfold bnToBuf. rewrite H. unfold pad_even. rewrite length_map.
  assert (Hpairs : forall l, digits_ok l -> Nat.even (List.length l) = true ->
                   hex_pairs (map hex_char l) = pair_bytes l).
  { intros l Hl He. revert Hl. pattern l. revert l He. apply even_pairs_ind.
    - reflexivity.
    - intros a b t IH Hl. inversion Hl as [|? ? Ha Hl']; subst. inversion Hl' as [|? ? Hb Ht]; subst.
      cbn [map hex_pairs pair_bytes]. rewrite parseInt16_pair by assumption.
      cbn [to_uint8]. rewrite Z.mod_small by lia. f_equal. apply IH. exact Ht. }
  destruct (Nat.odd (List.length ds)) eqn:Eo.
  - exists (0 :: ds). change ("0"%char :: map hex_char ds) with (map hex_char (0 :: ds)).
    assert (Hok0 : digits_ok (0 :: ds)) by (constructor; [lia | exact Hok]).
    assert (He0 : Nat.even (List.length (0 :: ds)) = true)
      by (cbn [List.length]; rewrite Nat.even_succ; exact Eo).
    split; [apply Hpairs; assumption|].
    repeat split; try assumption; try discriminate; exact Hv.
  - assert (Ee : Nat.even (List.length ds) = true) by (rewrite <- Nat.negb_odd, Eo; reflexivity).
    exists ds. split; [apply Hpairs; assumption|]. auto.
Qed.

Lemma pair_bytes_value ds : Nat.even (List.length ds) = true ->
  forall acc, fold_left (fun a x => a * 256 + x) (pair_bytes ds) acc = fold_left digit_step ds acc.
Proof.
  revert ds. fix IH 1. intros [|a [|b t]] He acc.
  - reflexivity.
  - discriminate He.
  - cbn [pair_bytes fold_left]. rewrite (IH t He). f_equal. unfold digit_step. ring.
Qed.

Lemma pair_bytes_ok ds : digits_ok ds -> bytes_ok (pair_bytes ds).
Proof.
  revert ds. fix IH 1. intros [|a [|b t]] H; cbn [pair_bytes].
  - constructor.
  - constructor.
  - inversion H as [|? ? Ha H']; subst. inversion H' as [|? ? Hb Ht]; subst.
    constructor; [lia | apply IH; exact Ht].
Qed.

Lemma pair_bytes_hex ds : digits_ok ds -> Nat.even (List.length ds) = true ->
  concat (map (fun i => pad_even (to_string16 i)) (pair_bytes ds)) = map hex_char ds.
Proof.
  revert ds. fix IH 1. intros [|a [|b t]] Hl He.
  - reflexivity.
  - discriminate He.
  - inversion Hl as [|? ? Ha Hl']; subst. inversion Hl' as [|? ? Hb Ht]; subst.
    cbn [pair_bytes map concat]. rewrite byte_hex_spec by lia.
    assert (Hq : (a * 16 + b) / 16 = a).
    { rewrite Z.div_add_l by lia. rewrite Z.div_small by lia. lia. }
    assert (Hr : (a * 16 + b) mod 16 = b).
    { rewrite Z.add_comm, Z.mod_add by lia. apply Z.mod_small. lia. }
    rewrite Hq, Hr, (IH t Ht He). reflexivity.
Qed.

Lemma hex_all_digits ds : digits_ok ds ->
  forall acc, hex_all (map hex_char ds) acc = Some (fold_left digit_step ds acc).
Proof.
  induction 1 as [|d t Hd Ht IH]; intros acc; [reflexivity|].
  cbn [map hex_all fold_left]. rewrite hex_digit_char by exact Hd. apply IH.
Qed.

Lemma be_value_bnToBuf n : 0 <= n -> be_value (bnToBuf n) = n.
Proof.
  intros Hn. destruct (bnToBuf_digits n Hn) as (ds & -> & Hok & He & Hne & Hv).
  unfold be_value. rewrite pair_bytes_value by exact He. exact Hv.
Qed.

Lemma bnToBuf_ok n : 0 <= n -> bytes_ok (bnToBuf n).
Proof.
  intros Hn. destruct (bnToBuf_digits n Hn) as (ds & -> & Hok & _).
  apply pair_bytes_ok. exact Hok.
Qed.

Lemma hex_all_nonneg s : forall acc v, 0 <= acc -> hex_all s acc = Some v -> 0 <= v.
Proof.
  induction s as [|c s IH]; intros acc v Ha H; cbn [hex_all] in H.
  - injection H as <-. exact Ha.
  - unfold hex_digit in H.
    repeat match type of H with
           | context [if ?b then _ else _] => destruct b eqn:?
           end; try discriminate; apply IH in H; auto;
    repeat match goal with Hb : (_ && _)%bool = true |- _ => apply andb_prop in Hb; destruct Hb end;
    rewrite ?Z.leb_le in *; lia.
Qed.

Lemma bufToBn_nonneg b x : bufToBn b = Ok x -> 0 <= x.
Proof.
  unfold bufToBn, BigInt_hex. destruct (concat _) as [|c s]; [discriminate|].
  destruct (hex_all (c :: s) 0) eqn:E; [|discriminate].
  intros H. injection H as <-. exact (hex_all_nonneg _ 0 z ltac:(lia) E).
Qed.

(** ** Claim C6: the big-integer codec round-trips *)

(** C6. For every unsigned big integer [n >= 0],
    [bufToBn (bnToBuf n) = n]: [bnToBuf] writes the big-endian bytes of the
    hex digits of [n] (a leading ['0'] added when the digit count is odd),
    and [bufToBn] reads them back. *)
Theorem bufToBn_bnToBuf (n : Z) (Hn : 0 <= n) : bufToBn (bnToBuf n) = Ok n.
Proof.
  destruct (bnToBuf_digits n Hn) as (ds & -> & Hok & He & Hne & Hv).
  assert (Hh : hex_all (map hex_char ds) 0 = Some n)
    by (rewrite hex_all_digits by exact Hok; rewrite <- Hv; reflexivity).
  unfold bufToBn. rewrite pair_bytes_hex by assumption.
  destruct ds as [|d t]; [contradiction|].
  cbn [BigInt_hex map].
  change (hex_char d :: map hex_char t) with (map hex_char (d :: t)).
  rewrite Hh. reflexivity.
Qed.

(** ** DER lengths *)

Lemma lor_128 k : 0 <= k < 128 -> Z.lor k 128 = k + 128.
Proof.
  intros Hk.
  assert (Hc : forallb (fun k => Z.lor k 128 =? k + 128) (zrange 128) = true)
    by (vm_compute; reflexivity).
  apply Z.eqb_eq. exact (zrange_forallb _ _ Hc k Hk).
Qed.

Lemma be_fixed_length k : forall v, List.length (be_fixed k v) = k.
Proof.
  induction k as [|k IH]; intros v; [reflexivity|].
  cbn [be_fixed]. rewrite length_app, IH. cbn. lia.
Qed.

Lemma be_value_snoc l x : be_value (l ++ [x]) = be_value l * 256 + x.
Proof. unfold be_value. rewrite fold_left_app. reflexivity. Qed.

Lemma be_fixed_value k : forall v, 0 <= v -> be_value (be_fixed k v) = v mod 256 ^ Z.of_nat k.
Proof.
  induction k as [|k IH]; intros v Hv.
  - cbn. rewrite Z.mod_1_r. reflexivity.
  - cbn [be_fixed]. rewrite be_value_snoc, IH by (apply Z.div_pos; lia).
    rewrite Nat2Z.inj_succ, Z.pow_succ_r by lia.
    rewrite Z.rem_mul_r by (try apply Z.pow_pos_nonneg; lia). lia.
Qed.

Lemma utilToBase_spec v : 128 <= v < 2 ^ 56 ->
  exists i, (1 <= i <= 7)%nat /\ v < 2 ^ (8 * Z.of_nat i) /\ utilToBase v = be_fixed i v.
Proof.
  intros Hv. unfold utilToBase.
  repeat match goal with
         | |- context [if v <? ?b then _ else _] =>
             let E := fresh "E" in destruct (v <? b) eqn:E;
             [apply Z.ltb_lt in E; eexists; split; [|split; [exact E | reflexivity]]; lia
             | apply Z.ltb_ge in E]
         end.
  cbn in *. lia.
Qed.

Lemma utilToBase_length v : (List.length (utilToBase v) <= 7)%nat.
Proof.
  unfold utilToBase.
  repeat match goal with
         | |- context [if ?c then _ else _] => destruct c
         end; rewrite ?be_fixed_length; cbn; lia.
Qed.

Lemma length_toBER_length L : (1 <= List.length (length_toBER L) <= 8)%nat.
Proof.
  unfold length_toBER. destruct (L <? 128); cbn [List.length]; [lia|].
  pose proof (utilToBase_length L). lia.
Qed.

Lemma firstn_skipn_prefix (c rest : bytes) :
  firstn (List.length c) (c ++ rest) = c /\ skipn (List.length c) (c ++ rest) = rest.
Proof.
  induction c as [|x c IH]; [split; reflexivity|].
  destruct IH as [H1 H2]. cbn. rewrite H1, H2. split; reflexivity.
Qed.

Lemma parse_length_toBER L rest : 0 <= L < 2 ^ 56 ->
  parse_length (length_toBER L ++ rest) = Some (L, rest).
Proof.
  intros HL. unfold length_toBER. destruct (L <? 128) eqn:E.
  - cbn. rewrite E. reflexivity.
  - apply Z.ltb_ge in E.
    destruct (utilToBase_spec L ltac:(lia)) as (i & Hi & HLi & ->).
    rewrite be_fixed_length, lor_128 by lia.
    cbn [app parse_length].
    replace (Z.of_nat i + 128 <? 128) with false by (symmetry; apply Z.ltb_ge; lia).
    replace ((Z.of_nat i + 128 =? 128) || (Z.of_nat i + 128 =? 255))%bool with false
      by (symmetry; apply orb_false_iff; split; apply Z.eqb_neq; lia).
    replace (Z.to_nat (Z.of_nat i + 128 - 128)) with i by lia.
    rewrite length_app, be_fixed_length.
    replace ((8 <? i)%nat || (i + List.length rest <? i)%nat)%bool with false
      by (symmetry; apply orb_false_iff; split; apply Nat.ltb_ge; lia).
    pose proof (firstn_skipn_prefix (be_fixed i L) rest) as [H1 H2].
    rewrite be_fixed_length in H1, H2. rewrite H1, H2.
    rewrite be_fixed_value by lia. rewrite Z.mod_small; [reflexivity|].
    split; [lia|].
    replace (256 ^ Z.of_nat i) with (2 ^ (8 * Z.of_nat i)) by (rewrite Z.pow_mul_r by lia; reflexivity).
    exact HLi.
Qed.

(** ** Decoding what [toBER] encodes *)

Lemma parse_node_int g c rest : Z.of_nat (List.length c) < 2 ^ 56 ->
  parse_node (S g) (2 :: length_toBER (Z.of_nat (List.length c)) ++ c ++ rest) =
  Some (BPrim 2 c, rest).
Proof.
  intros Hc. cbn [parse_node].
  replace (Z.land 2 31 =? 31) with false by reflexivity.
  rewrite parse_length_toBER by lia.
  rewrite Nat2Z.id, length_app.
  replace (List.length c + List.length rest <? List.length c)%nat with false
    by (symmetry; apply Nat.ltb_ge; lia).
  destruct (firstn_skipn_prefix c rest) as [-> ->]. reflexivity.
Qed.

Lemma parse_seq_cons f b bs :
  parse_seq (S f) (b :: bs) =
  match parse_node f (b :: bs) with
  | Some (n, rest) => option_map (cons n) (parse_seq f rest)
  | None => None
  end.
Proof. reflexivity. Qed.

Lemma parse_seq_ints cs : Forall (fun c => Z.of_nat (List.length c) < 2 ^ 56) cs ->
  forall f, (List.length cs < f)%nat ->
  parse_seq f (concat (map (fun c => toBER (AInteger c)) cs)) = Some (map (BPrim 2) cs).
Proof.
  induction 1 as [|c cs Hc Hcs IH]; intros f Hf.
  - destruct f; [cbn in Hf; lia|]. reflexivity.
  - destruct f as [|f]; [cbn in Hf; lia|].
    destruct f as [|f]; [cbn in Hf; lia|].
    cbn [map concat].
    change (toBER (AInteger c)) with (2 :: length_toBER (Z.of_nat (List.length c)) ++ c).
    rewrite <- app_comm_cons, parse_seq_cons, <- app_assoc.
    rewrite parse_node_int by exact Hc.
    rewrite IH by (cbn in Hf; lia). reflexivity.
Qed.

Lemma concat_int_length_lower cs :
  (List.length cs <= List.length (concat (map (fun c => toBER (AInteger c)) cs)))%nat.
Proof.
  induction cs as [|c cs IH]; [cbn; lia|].
  cbn [map concat]. rewrite length_app.
  assert (List.length (toBER (AInteger c)) >= 1)%nat by (cbn; lia).
  change (List.length (c :: cs)) with (S (List.length cs)). lia.
Qed.

Lemma concat_int_length_upper cs : Forall (fun c => Z.of_nat (List.length c) <= 2 ^ 48) cs ->
  Z.of_nat (List.length (concat (map (fun c => toBER (AInteger c)) cs))) <=
  Z.of_nat (List.length cs) * (2 ^ 48 + 9).
Proof.
  induction 1 as [|c cs Hc Hcs IH]; [cbn; lia|].
  cbn [map concat]. rewrite length_app.
  assert (Hl : List.length (toBER (AInteger c)) =
               S (List.length (length_toBER (Z.of_nat (List.length c))) + List.length c))
    by (cbn [toBER List.length]; rewrite length_app; reflexivity).
  change (List.length (c :: cs)) with (S (List.length cs)).
  pose proof (length_toBER_length (Z.of_nat (List.length c))). lia.
Qed.

Lemma toBER_sequence vs :
  toBER (ASequence vs) =
  48 :: length_toBER (Z.of_nat (List.length (concat (map toBER vs)))) ++ concat (map toBER vs).
Proof. reflexivity. Qed.

Lemma fromBER_int_sequence cs :
  Forall (fun c => Z.of_nat (List.length c) <= 2 ^ 48) cs -> (List.length cs <= 9)%nat ->
  fromBER (toBER (ASequence (map AInteger cs))) = Some (BCons 48 (map (BPrim 2) cs)).
Proof.
  intros Hcs Hlen. rewrite toBER_sequence, map_map.
  set (content := concat (map (fun c => toBER (AInteger c)) cs)).
  assert (Hup : Z.of_nat (List.length content) < 2 ^ 56).
  { pose proof (concat_int_length_upper cs Hcs). fold content in H. lia. }
  assert (Hlo : (List.length cs <= List.length content)%nat) by apply concat_int_length_lower.
  unfold fromBER. cbn [List.length]. rewrite length_app.
  cbn [parse_node].
  replace (Z.land 48 31 =? 31) with false by reflexivity.
  rewrite <- (app_nil_r content) at 2.
  rewrite parse_length_toBER by lia.
  rewrite Nat2Z.id, length_app. cbn [List.length]. rewrite Nat.add_0_r, Nat.ltb_irrefl.
  destruct (firstn_skipn_prefix content []) as [-> ->].
  replace (Z.testbit 48 5) with true by reflexivity.
  unfold content. rewrite parse_seq_ints.
  - reflexivity.
  - eapply Forall_impl; [|exact Hcs]. cbv beta. intros c Hc. lia.
  - pose proof (length_toBER_length (Z.of_nat (List.length content))). fold content. lia.
Qed.

(** ** INTEGER encoding of non-negative values *)

Lemma be_value_cons0 v : be_value (0 :: v) = be_value v.
Proof. reflexivity. Qed.

Lemma Integer_fromBigInt_nonneg x : 0 <= x ->
  exists c, Integer_fromBigInt x = AInteger c /\ twos_value c = x /\
            (List.length c <= S (List.length (bnToBuf x)))%nat.
Proof.
  intros Hx.
  assert (Hview : convert_FromHex (to_string16 (Z.abs x)) = bnToBuf x).
  { rewrite Z.abs_eq by exact Hx.
    destruct (to_string16_spec x Hx) as (ds & Hs & _ & Hne & _).
    unfold convert_FromHex, bnToBuf. rewrite Hs.
    destruct ds; [contradiction | reflexivity]. }
  unfold Integer_fromBigInt. rewrite Hview.
  replace (x <? 0) with false by (symmetry; apply Z.ltb_ge; exact Hx).
  destruct (Z.land (hd 0 (bnToBuf x)) 128 =? 0) eqn:Eh; cbn [negb app].
  - eexists; split; [reflexivity|]. split; [|lia].
    unfold twos_value. rewrite Eh. apply be_value_bnToBuf. exact Hx.
  - eexists; split; [reflexivity|]. split; [|cbn; lia].
    unfold twos_value. cbn [hd]. rewrite Z.land_0_l. cbn [Z.eqb].
    rewrite be_value_cons0. apply be_value_bnToBuf. exact Hx.
Qed.

Lemma canonical_integer f : canonical_field f = true ->
  exists c, jwk_integer f = Ok (AInteger c) /\ Z.of_nat (List.length c) <= 2 ^ 48 /\
            ber_field (BPrim 2 c) = Ok f.
Proof.
  unfold canonical_field, jwk_integer.
  destruct (b64url_decode f) as [b|]; [|discriminate].
  destruct (bufToBn b) as [x|] eqn:Ex; [|discriminate].
  intros H. apply andb_prop in H as [Hl Hs].
  apply Z.ltb_lt in Hl. apply String.eqb_eq in Hs.
  pose proof (bufToBn_nonneg b x Ex) as Hx.
  destruct (Integer_fromBigInt_nonneg x Hx) as (c & Hc & Hv & Hlen).
  exists c. cbn [bind_r]. rewrite Ex. cbn [bind_r]. rewrite Hc. split; [reflexivity|]. split; [lia|].
  unfold ber_field. change (toBigInt (BPrim 2 c)) with (@Ok Z (twos_value c)).
  cbn [bind_r]. rewrite Hv, Hs. reflexivity.
Qed.

(** C5 (amended). For every JWK [k] whose eight private components are all
    present and written in canonical unpadded base64url of a minimal
    big-endian integer (no leading zero byte, not empty),
    [pkcs1ToJwk (jwkToPkcs1 k)] returns the same eight components, together
    with [kty = 'RSA'] and [alg = 'RS256'], which [pkcs1ToJwk] always sets. *)
Theorem pkcs1_jwk_roundtrip (k : JsonWebKey) (Hk : canonical_private_jwk k = true) :
  bind_r (jwkToPkcs1 k) pkcs1ToJwk =
  Ok {| kty := Some "RSA"%string; alg := Some "RS256"%string;
        jwk_n := jwk_n k; jwk_e := jwk_e k; jwk_d := jwk_d k; jwk_p := jwk_p k;
        jwk_q := jwk_q k; jwk_dp := jwk_dp k; jwk_dq := jwk_dq k; jwk_qi := jwk_qi k |}.
Proof.
  destruct k as [kt al [n|] [e|] [d|] [p|] [q|] [dp|] [dq|] [qi|]];
    unfold canonical_private_jwk, private_fields in Hk; cbn in Hk; try discriminate Hk.
  repeat (apply andb_prop in Hk as [? Hk]).
  repeat match goal with
  | H : canonical_field _ = true |- _ =>
      let c := fresh "c" in let Hi := fresh "Hi" in let Hb := fresh "Hb" in
      let Hf := fresh "Hf" in
      destruct (canonical_integer _ H) as (c & Hi & Hb & Hf); clear H
  end.
  unfold jwkToPkcs1. cbn [jwk_n jwk_e jwk_d jwk_p jwk_q jwk_dp jwk_dq jwk_qi].
  repeat match goal with H : jwk_integer _ = _ |- _ => rewrite H; clear H end.
  cbn [bind_r].
  lazymatch goal with
  | |- context [toBER (ASequence [AInteger ?a; AInteger ?b; AInteger ?c; AInteger ?d;
                                  AInteger ?e; AInteger ?f; AInteger ?g; AInteger ?h;
                                  AInteger ?i])] =>
      change [AInteger a; AInteger b; AInteger c; AInteger d; AInteger e; AInteger f;
              AInteger g; AInteger h; AInteger i]
        with (map AInteger [a; b; c; d; e; f; g; h; i])
  end.
  unfold pkcs1ToJwk. rewrite fromBER_int_sequence.
  - unfold field_at, get_at. cbn [get_value block_value map nth_error bind_r].
    repeat match goal with H : ber_field _ = _ |- _ => rewrite H; clear H end.
    reflexivity.
  - repeat constructor; cbn; lia.
  - reflexivity.
Qed.

Lemma rfc_decode_loop_error cs : forall bits buffer out e,
  rfc_decode_loop cs bits buffer out = Err e -> e = SyntaxError "Non-base64url character".
Proof.
  induction cs as [|c t IH]; intros bits buffer out e H; cbn in H; [discriminate|].
  destruct (b64url_code c); [|injection H as <-; reflexivity].
  destruct (8 <=? _); eapply IH; exact H.
Qed.

Lemma jwk_integer_error s e : jwk_integer s = Err e -> is_param_error e = false.
Proof.
  unfold jwk_integer, b64url_decode, bufToBn, BigInt_hex.
  destruct (rfc_decode_loop _ _ _ _) as [[[bits buffer] out]|e'] eqn:Ed.
  - cbn [bind_r].
    destruct (_ || _).
    + intros H. injection H as <-. reflexivity.
    + cbn [bind_r]. destruct (concat _); [intros H; injection H as <-; reflexivity|].
      destruct (hex_all _ _); [discriminate|intros H; injection H as <-; reflexivity].
  - cbn [bind_r]. intros H. injection H as <-.
    rewrite (rfc_decode_loop_error _ _ _ _ _ Ed). reflexivity.
Qed.

Lemma jwk_integer_empty : jwk_integer EmptyString = Err (SyntaxError "Cannot convert 0x to a BigInt").
Proof. reflexivity. Qed.

Ltac split_jwk_integers :=
  repeat match goal with
  | |- context [bind_r (jwk_integer ?s) _] =>
      let E := fresh "E" in destruct (jwk_integer s) eqn:E; cbn [bind_r]
  end.

Ltac close_jwk_error :=
  match goal with
  | E : jwk_integer _ = Err ?e |- exists err, Err ?e = Err err /\ _ =>
      exists e; split; [reflexivity | exact (jwk_integer_error _ _ E)]
  end.

Ltac close_empty_field Hin :=
  exfalso; cbn [In] in Hin;
  repeat destruct Hin as [Hin|Hin];
  [ .. | contradiction ];
  subst; rewrite jwk_integer_empty in *; discriminate.

(** C10. [bufToBn] of the empty byte sequence is not [0] but throws (the
    literal [0x] is no BigInt); so [jwkToPkcs1] with all eight components
    present, one of them the empty string, and [jwkToPkix] with [n] and [e]
    present, one of them empty, both fail, and the error is not the
    [InvalidParametersError] the functions document for missing
    components. *)
Theorem empty_field_not_param_error :
  bufToBn [] = Err (SyntaxError "Cannot convert 0x to a BigInt") /\
  (forall k fs, private_fields k = Some fs -> In EmptyString fs ->
     exists err, jwkToPkcs1 k = Err err /\ is_param_error err = false) /\
  (forall k n e, jwk_n k = Some n -> jwk_e k = Some e -> In EmptyString [n; e] ->
     exists err, jwkToPkix k = Err err /\ is_param_error err = false).
Proof.
  split; [reflexivity|]. split.
  - intros [kt al [n|] [e|] [d|] [p|] [q|] [dp|] [dq|] [qi|]] fs Hp Hin;
      unfold private_fields in Hp; cbn in Hp; try discriminate Hp.
    injection Hp as <-. unfold jwkToPkcs1. cbn [jwk_n jwk_e jwk_d jwk_p jwk_q jwk_dp jwk_dq jwk_qi].
    split_jwk_integers; try close_jwk_error; close_empty_field Hin.
  - intros [kt al [n'|] [e'|] d p q dp dq qi] n e Hn He Hin; cbn in Hn, He;
      try discriminate Hn; try discriminate He.
    injection Hn as <-. injection He as <-.
    unfold jwkToPkix. cbn [jwk_n jwk_e].
    split_jwk_integers; try close_jwk_error; close_empty_field Hin.
Qed.

(** C9. [pkcs1ToJwk bs] succeeds with [jwk] exactly when the decoded
    sequence [values] exists, each of [values[1]] .. [values[8]] converts to a
    base64url string, and [jwk] holds these eight strings as [n], [e], [d],
    [p], [q], [dp], [dq], [qi] together with [kty = 'RSA'] and
    [alg = 'RS256'], whatever the input; [values[0]] (the version) takes no
    part. *)
Theorem pkcs1ToJwk_fields (bs : bytes) (jwk : JsonWebKey) :
  pkcs1ToJwk bs = Ok jwk <->
  exists values fs,
    get_value (fromBER bs) = Ok values /\
    map (field_at values) (seq 1 8) = map Ok fs /\
    private_fields jwk = Some fs /\
    kty jwk = Some "RSA"%string /\ alg jwk = Some "RS256"%string.
Proof.
  split.
  - unfold pkcs1ToJwk. destruct (get_value (fromBER bs)) as [values|]; [|discriminate].
    cbn [bind_r].
    destruct (field_at values 1) as [n|] eqn:E1; [|discriminate]; cbn [bind_r].
    destruct (field_at values 2) as [e|] eqn:E2; [|discriminate]; cbn [bind_r].
    destruct (field_at values 3) as [d|] eqn:E3; [|discriminate]; cbn [bind_r].
    destruct (field_at values 4) as [p|] eqn:E4; [|discriminate]; cbn [bind_r].
    destruct (field_at values 5) as [q|] eqn:E5; [|discriminate]; cbn [bind_r].
    destruct (field_at values 6) as [dp|] eqn:E6; [|discriminate]; cbn [bind_r].
    destruct (field_at values 7) as [dq|] eqn:E7; [|discriminate]; cbn [bind_r].
    destruct (field_at values 8) as [qi|] eqn:E8; [|discriminate]; cbn [bind_r].
    intros H. injection H as <-.
    exists values, [n; e; d; p; q; dp; dq; qi]. repeat split.
    cbn [seq map]. rewrite E1, E2, E3, E4, E5, E6, E7, E8. reflexivity.
  - intros (values & fs & Hg & Hm & Hp & Hk & Ha).
    destruct jwk as [kt al [n|] [e|] [d|] [p|] [q|] [dp|] [dq|] [qi|]];
      unfold private_fields in Hp; cbn in Hp; try discriminate Hp.
    injection Hp as <-. cbn in Hk, Ha. subst kt al.
    cbn [seq map] in Hm. injection Hm as E1 E2 E3 E4 E5 E6 E7 E8.
    unfold pkcs1ToJwk. rewrite Hg. cbn [bind_r].
    rewrite E1, E2, E3, E4, E5, E6, E7, E8. reflexivity.
Qed.

(** ** Key-size policy of the RSA key constructors *)

Lemma tbind_lift_ok {A B : Type} (a : A) (k : A -> traced B) : tbind (tlift (Ok a)) k = k a.
Proof. unfold tbind, tlift. destruct (k a). reflexivity. Qed.

(** C4. Every RSA key constructor rejects a key whose modulus size (as
    [rsaKeySize] reports it) exceeds [MAX_RSA_KEY_SIZE = 8192] bits with the
    error ['Key size is too large'] ([InvalidPublicKeyError] for
    [pkixToRSAPublicKey], [InvalidParametersError] for the others), and it
    does so with an empty trace: no protobuf encoding, no sha2-256
    fingerprint and, for [generateRSAKeyPair], no call of the key
    generator. *)
Theorem rsa_key_size_policy `{RsaDeps} :
  (forall bs jwk size, pkixToJwk bs = Ok jwk -> rsaKeySize jwk = Ok size ->
     MAX_RSA_KEY_SIZE < size ->
     pkixToRSAPublicKey bs = ([], Err (InvalidPublicKeyError "Key size is too large"))) /\
  (forall jwk size, rsaKeySize jwk = Ok size -> MAX_RSA_KEY_SIZE < size ->
     jwkToRSAPrivateKey jwk = ([], Err (InvalidParametersError "Key size is too large"))) /\
  (forall bs jwk size, pkcs1ToJwk bs = Ok jwk -> rsaKeySize jwk = Ok size ->
     MAX_RSA_KEY_SIZE < size ->
     pkcs1ToRSAPrivateKey bs = ([], Err (InvalidParametersError "Key size is too large"))) /\
  (forall bits, MAX_RSA_KEY_SIZE < bits ->
     generateRSAKeyPair bits = ([], Err (InvalidParametersError "Key size is too large"))).
Proof.
  assert (Hjwk : forall jwk size, rsaKeySize jwk = Ok size -> MAX_RSA_KEY_SIZE < size ->
            jwkToRSAPrivateKey jwk = ([], Err (InvalidParametersError "Key size is too large"))).
  { intros jwk size Hs Hl. unfold jwkToRSAPrivateKey. rewrite Hs, tbind_lift_ok.
    apply Z.ltb_lt in Hl. rewrite Hl. reflexivity. }
  split; [|split; [exact Hjwk|split]].
  - intros bs jwk size Hj Hs Hl. unfold pkixToRSAPublicKey.
    rewrite Hj, tbind_lift_ok, Hs, tbind_lift_ok.
    apply Z.ltb_lt in Hl. rewrite Hl. reflexivity.
  - intros bs jwk size Hj Hs Hl. unfold pkcs1ToRSAPrivateKey.
    rewrite Hj, tbind_lift_ok. exact (Hjwk jwk size Hs Hl).
  - intros bits Hl. unfold generateRSAKeyPair.
    apply Z.ltb_lt in Hl. rewrite Hl. reflexivity.
Qed.

(** ** Peer ids *)

(** C1 (amended). A CID with a multihash and version 0 passes the CID check
    of [peerIdFromCID]: it never fails there with [InvalidCIDError]. With
    codec [0x0920] it takes the URL path, with any other codec it is handed
    to [peerIdFromMultihash]. *)
Theorem peerIdFromCID_version0 `{PeerIdDeps} (cid : CID) (mh : Multihash)
  (Hm : cid_multihash cid = Some mh) (Hv : cid_version cid = Some 0) :
  peerIdFromCID cid =
  if cid_code cid =? TRANSPORT_IPFS_GATEWAY_HTTP_CODE then url_peer (mh_digest mh)
  else peerIdFromMultihash mh.
Proof. unfold peerIdFromCID. rewrite Hm, Hv. reflexivity. Qed.

Lemma peerIdFromCID_version0_counterexample :
  @peerIdFromCID Samples.peer_deps sample_v0_cid = Ok (RSAPeerId sample_v0_multihash None).
Proof. vm_compute. reflexivity. Qed.

Lemma peerIdFromCID_version0_witness :
  @peerIdFromCID Samples.peer_deps sample_v0_cid = Ok (RSAPeerId sample_v0_multihash None).
Proof.
  rewrite (@peerIdFromCID_version0 Samples.peer_deps sample_v0_cid sample_v0_multihash
             eq_refl eq_refl).
  vm_compute. reflexivity.
Defined.

(** C2 (amended). Modelled from the spec: for every public key [pk] of type
    RSA, [peerIdFromPublicKey pk] is an [RSAPeerId] whose multihash is the
    one of [pk.toCID()] and which embeds [pk] itself. *)
Theorem peerIdFromPublicKey_rsa (pk : PublicKey)
  (Ht : pk_type pk = "RSA"%string) :
  peerIdFromPublicKey pk = Ok (RSAPeerId (pk_cid_multihash pk) (Some pk)).
Proof. unfold peerIdFromPublicKey. rewrite Ht. reflexivity. Qed.

Lemma peerIdFromPublicKey_rsa_counterexample :
  peerIdFromPublicKey sample_rsa_key =
  Ok (RSAPeerId (mkMultihash 18 (repeat 7 32)) (Some sample_rsa_key)).
Proof. reflexivity. Qed.

Lemma peerIdFromPublicKey_rsa_witness :
  peerIdFromPublicKey sample_rsa_key =
  Ok (RSAPeerId (mkMultihash 18 (repeat 7 32)) (Some sample_rsa_key)).
Proof. exact (peerIdFromPublicKey_rsa sample_rsa_key eq_refl). Defined.

(** C3 (amended). For an identity-coded multihash: when key parsing fails,
    the result is the URL path, a [URLPeerId] when the UTF-8 digest parses
    as a URL and otherwise the error of the [URL] constructor (not an
    invalid-multihash error); a key that parses but is neither Ed25519 nor
    secp256k1 gives the invalid-multihash error; and the URL path is taken
    only when key parsing fails. *)
Theorem peerIdFromMultihash_identity `{PeerIdDeps} (mh : Multihash)
  (Hc : mh_code mh = IDENTITY_CODE) :
  (forall e, publicKeyFromMultihash mh = Err e ->
     peerIdFromMultihash mh =
     match new_URL (uint8ArrayToString (mh_digest mh)) with
     | Ok url => Ok (URLPeerId url)
     | Err e' => Err e'
     end) /\
  (forall pk, publicKeyFromMultihash mh = Ok pk ->
     pk_type pk <> "Ed25519"%string -> pk_type pk <> "secp256k1"%string ->
     peerIdFromMultihash mh = Err (InvalidMultihashError "Supplied PeerID Multihash is invalid")) /\
  (forall pk url, publicKeyFromMultihash mh = Ok pk ->
     peerIdFromMultihash mh <> Ok (URLPeerId url)).
Proof.
  assert (Hpath : peerIdFromMultihash mh =
            match publicKeyFromMultihash mh with
            | Ok pk =>
                if String.eqb (pk_type pk) "Ed25519" then Ok (Ed25519PeerId mh pk)
                else if String.eqb (pk_type pk) "secp256k1" then Ok (Secp256k1PeerId mh pk)
                else Err (InvalidMultihashError "Supplied PeerID Multihash is invalid")
            | Err _ => url_peer (mh_digest mh)
            end).
  { unfold peerIdFromMultihash, isSha256Multihash, isIdentityMultihash. rewrite Hc. reflexivity. }
  rewrite Hpath. split; [|split].
  - intros e He. rewrite He. unfold url_peer, bind_r. reflexivity.
  - intros pk Hp He Hs. rewrite Hp.
    apply String.eqb_neq in He, Hs. rewrite He, Hs. reflexivity.
  - intros pk url Hp. rewrite Hp.
    destruct (String.eqb _ "Ed25519"); [discriminate|].
    destruct (String.eqb _ "secp256k1"); discriminate.
Qed.

Lemma peerIdFromMultihash_identity_counterexample :
  @peerIdFromMultihash Samples.peer_deps sample_nul_multihash = Err (TypeError "Invalid URL").
Proof. vm_compute. reflexivity. Qed.

Lemma peerIdFromMultihash_identity_witness :
  @peerIdFromMultihash Samples.peer_deps sample_nul_multihash = Err (TypeError "Invalid URL").
Proof.
  destruct (@peerIdFromMultihash_identity Samples.peer_deps sample_nul_multihash eq_refl)
    as [Hurl _].
  rewrite (Hurl (JsError "invalid wire type") eq_refl). vm_compute. reflexivity.
Defined.

(** C7. For every string ['Q' ++ rest] whose multibase base58btc decoding
    (of ['z' ++ str]) is a multihash with code sha2-256 ([0x12]),
    [peerIdFromString] returns the [RSAPeerId] of exactly that multihash,
    with no key, whatever decoder (or none) is passed. *)
Theorem peerIdFromString_Q `{PeerIdDeps} (rest : string)
  (decoder : option (string -> result bytes)) (b : bytes) (mh : Multihash)
  (Hb : base58btc_decode ("z" ++ String "Q" rest) = Ok b)
  (Hd : digest_decode b = Ok mh) (Hc : mh_code mh = SHA2_256_CODE) :
  peerIdFromString (String "Q" rest) decoder = Ok (RSAPeerId mh None).
Proof.
  unfold peerIdFromString. cbn [charAt0].
  replace (String.eqb (String "Q" EmptyString) "1" || String.eqb (String "Q" EmptyString) "Q")
    with true by reflexivity.
  rewrite Hb. cbn [bind_r]. rewrite Hd. cbn [bind_r].
  unfold peerIdFromMultihash, isSha256Multihash. rewrite Hc, Z.eqb_refl. reflexivity.
Qed.

Lemma peerIdFromString_Q_witness :
  @peerIdFromString Samples.peer_deps (String "Q" sample_rsa_peer_rest) None =
  Ok (RSAPeerId sample_v0_multihash None).
Proof.
  apply (@peerIdFromString_Q Samples.peer_deps sample_rsa_peer_rest None sample_rsa_peer_bytes);
    vm_compute; reflexivity.
Defined.

(** C8 (amended). For every CID with a multihash, version 1 and codec
    [0x0920], [peerIdFromCID] goes straight to the URL path, never to
    [peerIdFromMultihash]: it returns the [URLPeerId] of the URL the UTF-8
    digest parses to, and the [URL] constructor's error when it does not
    parse. In particular, when the digest decodes to
    ["https://example.com"], the result wraps [new URL("https://example.com")]. *)
Theorem peerIdFromCID_url `{PeerIdDeps} (cid : CID) (mh : Multihash)
  (Hm : cid_multihash cid = Some mh) (Hv : cid_version cid = Some 1)
  (Hc : cid_code cid = TRANSPORT_IPFS_GATEWAY_HTTP_CODE) :
  peerIdFromCID cid =
  match new_URL (uint8ArrayToString (mh_digest mh)) with
  | Ok url => Ok (URLPeerId url)
  | Err e => Err e
  end /\
  (forall url, uint8ArrayToString (mh_digest mh) = "https://example.com"%string ->
     new_URL "https://example.com" = Ok url -> peerIdFromCID cid = Ok (URLPeerId url)).
Proof.
  assert (Hp : peerIdFromCID cid = url_peer (mh_digest mh)).
  { unfold peerIdFromCID. rewrite Hm, Hv, Hc. reflexivity. }
  rewrite Hp. split.
  - reflexivity.
  - intros url Hs Hu. unfold url_peer. rewrite Hs, Hu. reflexivity.
Qed.

Lemma peerIdFromCID_url_counterexample :
  @peerIdFromCID Samples.peer_deps sample_empty_url_cid = Err (TypeError "Invalid URL").
Proof. vm_compute. reflexivity. Qed.

Lemma peerIdFromCID_url_witness :
  @peerIdFromCID Samples.peer_deps sample_example_com_cid =
  Ok (URLPeerId (mkURL "https://example.com")).
Proof.
  destruct (@peerIdFromCID_url Samples.peer_deps sample_example_com_cid
              (mkMultihash 0 example_com_bytes) eq_refl eq_refl eq_refl) as [_ Hex].
  apply Hex; vm_compute; reflexivity.
Defined.

(** ** Witnesses and counterexamples of the RSA codec claims *)

Lemma bufToBn_bnToBuf_witness : bufToBn (bnToBuf 65537) = Ok 65537.
Proof. apply bufToBn_bnToBuf. lia. Defined.

(** Two private JWKs, with all eight components present, that do not come
    back unchanged: one without [alg] (it comes back with [alg = 'RS256']),
    one whose [n] has a leading zero byte ([AAE], it comes back as [AQ]). *)
Lemma pkcs1_jwk_roundtrip_counterexample :
  bind_r (jwkToPkcs1 sample_jwk_no_alg) pkcs1ToJwk <> Ok sample_jwk_no_alg /\
  bind_r (jwkToPkcs1 sample_jwk_leading_zero) pkcs1ToJwk <> Ok sample_jwk_leading_zero.
Proof. split; vm_compute; intros H; injection H; discriminate. Qed.

Lemma pkcs1_jwk_roundtrip_witness :
  bind_r (jwkToPkcs1 sample_jwk) pkcs1ToJwk = Ok sample_jwk.
Proof. apply (pkcs1_jwk_roundtrip sample_jwk). vm_compute. reflexivity. Defined.

(** * Further properties of the code *)

(** ** The big-integer codec *)

Lemma to_hex_aux_lead f : forall n acc, 0 < n < 16 ^ Z.of_nat (S f) ->
  exists d rest, to_hex_aux (S f) n acc = hex_char d :: rest /\ 0 < d < 16.
Proof.
  induction f as [|f IH]; intros n acc Hn.
  - rewrite to_hex_aux_S. replace (n <? 16) with true by (symmetry; apply Z.ltb_lt; simpl in Hn; lia).
    exists n, acc. split; [reflexivity|]. simpl in Hn. lia.
  - rewrite to_hex_aux_S. destruct (n <? 16) eqn:E.
    + apply Z.ltb_lt in E. exists n, acc. split; [reflexivity | lia].
    + apply Z.ltb_ge in E. apply IH.
      split; [apply Z.div_str_pos; lia|].
      apply Z.div_lt_upper_bound; [lia|].
      replace (Z.of_nat (S (S f))) with (Z.succ (Z.of_nat (S f))) in Hn by lia.
      rewrite Z.pow_succ_r in Hn by lia. lia.
Qed.

Lemma to_string16_lead n : 0 < n ->
  exists d ds, to_string16 n = map hex_char (d :: ds) /\ digits_ok (d :: ds) /\ 0 < d.
Proof.
  intros Hn. destruct (to_string16_spec n ltac:(lia)) as (ds & Hs & Hok & Hne & _).
  assert (Hl : exists d rest, to_string16 n = hex_char d :: rest /\ 0 < d < 16).
  { unfold to_string16. replace (n <? 0) with false by (symmetry; apply Z.ltb_ge; lia).
    apply to_hex_aux_lead. split; [exact Hn|].
    rewrite Nat2Z.inj_succ, Z2Nat.id by apply Z.log2_nonneg.
    apply Z.lt_le_trans with (2 ^ Z.succ (Z.log2 n)).
    + apply Z.log2_spec. lia.
    + replace 16 with (2 ^ 4) by reflexivity. rewrite <- Z.pow_mul_r by (pose proof (Z.log2_nonneg n); lia).
      apply Z.pow_le_mono_r; pose proof (Z.log2_nonneg n); lia. }
  destruct Hl as (d & rest & Hl & Hd).
  destruct ds as [|d' ds]; [contradiction|].
  rewrite Hs in Hl. cbn [map] in Hl. injection Hl as Hc _.
  inversion Hok as [|? ? Hd' _]; subst.
  assert (d' = d).
  { pose proof (hex_digit_char d' Hd') as E1. pose proof (hex_digit_char d ltac:(lia)) as E2.
    rewrite Hc in E1. congruence. }
  subst d'. exists d, ds. repeat split; [exact Hs | exact Hok | lia].
Qed.

Lemma bnToBuf_lead n : 0 < n -> hd 0 (bnToBuf n) <> 0.
Proof.
  intros Hn. destruct (to_string16_lead n Hn) as (d & ds & Hs & Hok & Hd).
  inversion Hok as [|? ? Hd16 Hok']; subst.
  unfold bnToBuf, pad_even. rewrite Hs, length_map.
  destruct (Nat.odd (List.length (d :: ds))) eqn:Eo.
  - change ("0"%char :: map hex_char (d :: ds)) with (hex_char 0 :: hex_char d :: map hex_char ds).
    cbn [hex_pairs hd]. rewrite parseInt16_pair by lia. cbn [to_uint8].
    rewrite Z.mod_small by lia. lia.
  - destruct ds as [|e ds]; [discriminate Eo|].
    inversion Hok' as [|? ? He _]; subst.
    cbn [map hex_pairs hd]. rewrite parseInt16_pair by lia. cbn [to_uint8].
    rewrite Z.mod_small by lia. lia.
Qed.

Lemma bnToBuf_nonempty n : 0 <= n -> bnToBuf n <> [].
Proof.
  intros Hn. destruct (bnToBuf_digits n Hn) as (ds & -> & _ & He & Hne & _).
  destruct ds as [|a [|b t]]; [contradiction | discriminate He | discriminate].
Qed.

(** X1. For every [n >= 0], [bnToBuf n] is the minimal unsigned big-endian
    byte form of [n]: its elements are bytes, its big-endian value is [n],
    it is never empty, it is [[0]] for [0], and for [n > 0] its first byte
    is not zero. *)
Theorem bnToBuf_minimal (n : Z) (Hn : 0 <= n) :
  bytes_ok (bnToBuf n) /\ be_value (bnToBuf n) = n /\ bnToBuf n <> [] /\
  (n = 0 -> bnToBuf n = [0]) /\ (0 < n -> hd 0 (bnToBuf n) <> 0).
Proof.
  split; [apply bnToBuf_ok; exact Hn|].
  split; [apply be_value_bnToBuf; exact Hn|].
  split; [apply bnToBuf_nonempty; exact Hn|].
  split; [intros ->; reflexivity | apply bnToBuf_lead].
Qed.

Lemma bnToBuf_minimal_witness :
  be_value (bnToBuf 256) = 256 /\ hd 0 (bnToBuf 256) <> 0.
Proof.
  destruct (bnToBuf_minimal 256 ltac:(lia)) as (_ & Hv & _ & _ & Hlead).
  split; [exact Hv | apply Hlead; lia].
Defined.

Lemma byte_hex_concat b : bytes_ok b ->
  concat (map (fun i => pad_even (to_string16 i)) b) = map hex_char (byte_digits b).
Proof.
  induction 1 as [|x b Hx Hb IH]; [reflexivity|].
  unfold byte_digits in *. cbn [map concat]. rewrite byte_hex_spec by exact Hx.
  rewrite IH, map_app. reflexivity.
Qed.

Lemma byte_digits_ok b : bytes_ok b -> digits_ok (byte_digits b).
Proof.
  induction 1 as [|x b Hx Hb IH]; [constructor|].
  unfold byte_digits in *. cbn [map concat]. apply Forall_app. split; [|exact IH].
  constructor; [|constructor; [|constructor]].
  - split; [apply Z.div_pos; lia | apply Z.div_lt_upper_bound; lia].
  - apply Z.mod_pos_bound. lia.
Qed.

Lemma byte_digits_value b : bytes_ok b -> forall acc,
  fold_left digit_step (byte_digits b) acc = fold_left (fun a x => a * 256 + x) b acc.
Proof.
  induction 1 as [|x b Hx Hb IH]; intros acc; [reflexivity|].
  unfold byte_digits in *. cbn [map concat]. rewrite fold_left_app, IH. cbn [fold_left].
  f_equal. unfold digit_step. pose proof (Z.div_mod x 16). lia.
Qed.

(** X2. [bufToBn] reads every non-empty byte array as its unsigned
    big-endian value, and throws a [SyntaxError] on the empty one. *)
Theorem bufToBn_value (b : bytes) (Hb : bytes_ok b) :
  bufToBn b = (match b with
               | [] => Err (SyntaxError "Cannot convert 0x to a BigInt")
               | _ => Ok (be_value b)
               end).
Proof.
  unfold bufToBn. rewrite byte_hex_concat by exact Hb.
  destruct b as [|x t]; [reflexivity|].
  pose proof (hex_all_digits _ (byte_digits_ok _ Hb) 0) as Hh.
  rewrite byte_digits_value in Hh by exact Hb.
  unfold byte_digits in *. cbn [map concat] in *. cbn [app map BigInt_hex].
  cbn [map app] in Hh. rewrite Hh. reflexivity.
Qed.

Lemma bufToBn_value_witness : bufToBn [0; 1; 0] = Ok 256.
Proof. rewrite (bufToBn_value [0; 1; 0]) by (repeat constructor; lia). reflexivity. Defined.

Lemma be_fold_acc l : forall acc,
  fold_left (fun a x => a * 256 + x) l acc =
  acc * 256 ^ Z.of_nat (List.length l) + fold_left (fun a x => a * 256 + x) l 0.
Proof.
  induction l as [|x l IH]; intros acc; cbn [fold_left List.length].
  - lia.
  - rewrite IH, (IH (0 * 256 + x)). rewrite Nat2Z.inj_succ, Z.pow_succ_r by lia. ring.
Qed.

Lemma be_value_cons x l : be_value (x :: l) = x * 256 ^ Z.of_nat (List.length l) + be_value l.
Proof. unfold be_value. cbn [fold_left]. rewrite be_fold_acc. ring. Qed.

Lemma be_value_bound l : bytes_ok l -> 0 <= be_value l < 256 ^ Z.of_nat (List.length l).
Proof.
  induction 1 as [|x l Hx Hl IH]; [cbn; lia|].
  rewrite be_value_cons. cbn [List.length]. rewrite Nat2Z.inj_succ, Z.pow_succ_r by lia.
  pose proof (Z.pow_pos_nonneg 256 (Z.of_nat (List.length l)) ltac:(lia) ltac:(lia)). nia.
Qed.

Lemma be_value_lead x l : bytes_ok (x :: l) -> x <> 0 ->
  256 ^ Z.of_nat (List.length l) <= be_value (x :: l).
Proof.
  intros H Hx. inversion H as [|? ? Hx' Hl]; subst.
  rewrite be_value_cons. pose proof (be_value_bound l Hl). nia.
Qed.

Lemma be_value_same_length l1 : forall l2, List.length l1 = List.length l2 ->
  bytes_ok l1 -> bytes_ok l2 -> be_value l1 = be_value l2 -> l1 = l2.
Proof.
  induction l1 as [|x l1 IH]; intros [|y l2] Hlen H1 H2 Hv; try discriminate Hlen; [reflexivity|].
  injection Hlen as Hlen. inversion H1 as [|? ? Hx Hl1]; subst. inversion H2 as [|? ? Hy Hl2]; subst.
  rewrite !be_value_cons, <- Hlen in Hv.
  pose proof (be_value_bound l1 Hl1). pose proof (be_value_bound l2 Hl2). rewrite <- Hlen in *.
  set (P := 256 ^ Z.of_nat (List.length l1)) in *.
  assert (Hxy : x = y).
  { assert (x = (x * P + be_value l1) / P) as E1.
    { rewrite Z.div_add_l by lia. rewrite Z.div_small by lia. lia. }
    assert (y = (y * P + be_value l2) / P) as E2.
    { rewrite Z.div_add_l by lia. rewrite Z.div_small by lia. lia. }
    rewrite E1, E2, Hv. reflexivity. }
  subst y. f_equal. apply IH; auto. lia.
Qed.

Lemma minimal_unique l1 l2 : bytes_ok l1 -> bytes_ok l2 -> l1 <> [] -> l2 <> [] ->
  hd 0 l1 <> 0 -> hd 0 l2 <> 0 -> be_value l1 = be_value l2 -> l1 = l2.
Proof.
  intros H1 H2 Hn1 Hn2 Hh1 Hh2 Hv.
  destruct l1 as [|x l1]; [contradiction|]. destruct l2 as [|y l2]; [contradiction|].
  cbn [hd] in Hh1, Hh2.
  apply be_value_same_length; auto.
  pose proof (be_value_lead x l1 H1 Hh1). pose proof (be_value_lead y l2 H2 Hh2).
  pose proof (be_value_bound _ H1). pose proof (be_value_bound _ H2).
  cbn [List.length] in *. rewrite !Nat2Z.inj_succ, !Z.pow_succ_r in * by lia.
  destruct (Nat.lt_total (List.length l1) (List.length l2)) as [Hlt|[Heq|Hlt]]; [|lia|].
  - assert (256 * 256 ^ Z.of_nat (List.length l1) <= 256 ^ Z.of_nat (List.length l2)).
    { rewrite <- Z.pow_succ_r by lia. apply Z.pow_le_mono_r; lia. }
    lia.
  - assert (256 * 256 ^ Z.of_nat (List.length l2) <= 256 ^ Z.of_nat (List.length l1)).
    { rewrite <- Z.pow_succ_r by lia. apply Z.pow_le_mono_r; lia. }
    lia.
Qed.

Lemma strip_zeros_spec b : bytes_ok b ->
  bytes_ok (strip_zeros b) /\ be_value (strip_zeros b) = be_value b /\
  (strip_zeros b = [] \/ hd 0 (strip_zeros b) <> 0).
Proof.
  intros H. induction H as [|x b Hx Hb IH]; [cbn; split; [constructor | auto]|].
  destruct x as [|p|p]; cbn [strip_zeros].
  - rewrite be_value_cons0. exact IH.
  - split; [constructor; auto|]. split; [reflexivity|]. right. discriminate.
  - lia.
Qed.

(** X3. For every non-empty byte array [b], [bnToBuf (bufToBn b)] is [b]
    without its leading zero bytes, or [[0]] when [b] holds only zeros: the
    codec normalises byte arrays to their minimal big-endian form. *)
Theorem bnToBuf_bufToBn (b : bytes) (Hb : bytes_ok b) (Hne : b <> []) :
  bind_r (bufToBn b) (fun x => Ok (bnToBuf x)) = Ok (minimal_bytes b).
Proof.
  rewrite (bufToBn_value b Hb). destruct b as [|x t]; [contradiction|].
  set (b := x :: t). cbn [bind_r]. f_equal.
  destruct (strip_zeros_spec b Hb) as (Hok & Hv & [Hz|Hh]); unfold minimal_bytes.
  - rewrite Hz in *. rewrite <- Hv. reflexivity.
  - pose proof (be_value_bound b Hb) as Hbd.
    destruct (Z.eq_dec (be_value b) 0) as [H0|H0].
    + exfalso. destruct (strip_zeros b) as [|y l] eqn:E; [apply Hh; reflexivity|].
      cbn [hd] in Hh. inversion Hok as [|? ? Hy Hl]; subst.
      pose proof (be_value_lead y l Hok Hh). pose proof (Z.pow_pos_nonneg 256 (Z.of_nat (List.length l))).
      lia.
    + assert (Hs : strip_zeros b <> []) by (intros E; rewrite E in Hh; apply Hh; reflexivity).
      destruct (strip_zeros b) as [|y l] eqn:E; [contradiction|].
      apply minimal_unique.
      * apply bnToBuf_ok. lia.
      * exact Hok.
      * apply bnToBuf_nonempty. lia.
      * discriminate.
      * apply bnToBuf_lead. lia.
      * exact Hh.
      * rewrite be_value_bnToBuf by lia. symmetry. exact Hv.
Qed.

Lemma bnToBuf_bufToBn_witness :
  bind_r (bufToBn [0; 0; 1; 0]) (fun x => Ok (bnToBuf x)) = Ok [1; 0].
Proof.
  rewrite (bnToBuf_bufToBn [0; 0; 1; 0]) by (try (repeat constructor; lia); discriminate).
  reflexivity.
Defined.

(** ** PKIX round trip *)

Lemma parses_as_mono d d' enc n : (d <= d')%nat -> parses_as d enc n -> parses_as d' enc n.
Proof. intros Hd H g rest Hg. apply H. lia. Qed.

Lemma parses_as_nonempty d enc n : parses_as d enc n -> enc <> [].
Proof. intros H ->. specialize (H d [] (le_n d)). discriminate H. Qed.

Lemma parse_seq_S f l :
  parse_seq (S f) l =
  match l with
  | [] => Some []
  | _ => match parse_node f l with
         | Some (n, rest) => option_map (cons n) (parse_seq f rest)
         | None => None
         end
  end.
Proof. destruct l; reflexivity. Qed.

Lemma parse_seq_concat d encs nodes : Forall2 (parses_as d) encs nodes ->
  forall f, (List.length encs + d < f)%nat -> parse_seq f (concat encs) = Some nodes.
Proof.
  induction 1 as [|e n es ns He Hes IH]; intros f Hf.
  - destruct f; [lia|]. reflexivity.
  - destruct f as [|f]; [lia|]. cbn [concat]. rewrite parse_seq_S.
    destruct f as [|f]; [cbn in Hf; lia|].
    pose proof (parses_as_nonempty _ _ _ He) as Hne.
    rewrite (He f (concat es)) by (cbn in Hf; lia).
    rewrite (IH (S f)) by (cbn in Hf; lia).
    destruct e; [contradiction | reflexivity].
Qed.

Lemma parses_as_seq d encs nodes : Forall2 (parses_as d) encs nodes ->
  Z.of_nat (List.length (concat encs)) < 2 ^ 56 ->
  parses_as (S (List.length encs + d))
    (48 :: length_toBER (Z.of_nat (List.length (concat encs))) ++ concat encs) (BCons 48 nodes).
Proof.
  intros Hf Hl g rest Hg. cbn [app]. rewrite <- app_assoc. cbn [parse_node].
  replace (Z.land 48 31 =? 31) with false by reflexivity.
  rewrite parse_length_toBER by lia. rewrite Nat2Z.id, length_app.
  replace (List.length (concat encs) + List.length rest <? List.length (concat encs))%nat with false
    by (symmetry; apply Nat.ltb_ge; lia).
  destruct (firstn_skipn_prefix (concat encs) rest) as [-> ->].
  replace (Z.testbit 48 5) with true by reflexivity.
  rewrite (parse_seq_concat d encs nodes Hf g) by lia. reflexivity.
Qed.

Lemma parses_as_int c : Z.of_nat (List.length c) < 2 ^ 56 ->
  parses_as 0 (toBER (AInteger c)) (BPrim 2 c).
Proof.
  intros Hc g rest _. cbn [toBER app]. rewrite <- app_assoc. apply parse_node_int. exact Hc.
Qed.

Lemma parses_as_bits v : Z.of_nat (S (List.length v)) < 2 ^ 56 ->
  parses_as 0 (toBER (ABitString v)) (BPrim 3 (0 :: v)).
Proof.
  intros Hv g rest _. cbn [toBER app]. rewrite <- app_assoc. cbn [parse_node].
  replace (Z.land 3 31 =? 31) with false by reflexivity.
  rewrite parse_length_toBER by lia. rewrite Nat2Z.id.
  change ((0 :: v) ++ rest) with (0 :: v ++ rest).
  cbn [List.length]. rewrite length_app.
  replace (S (List.length v + List.length rest) <? S (List.length v))%nat with false
    by (symmetry; apply Nat.ltb_ge; lia).
  change (0 :: v ++ rest) with ((0 :: v) ++ rest).
  replace (S (List.length v)) with (List.length (0 :: v)) by reflexivity.
  destruct (firstn_skipn_prefix (0 :: v) rest) as [-> ->]. reflexivity.
Qed.

Definition rsa_oid_content : bytes := [42; 134; 72; 134; 247; 13; 1; 1; 1].

Lemma parses_as_algorithm :
  parses_as 3 (toBER (ASequence [AObjectIdentifier rsaEncryption; ANull]))
    (BCons 48 [BPrim 6 rsa_oid_content; BPrim 5 []]).
Proof.
  rewrite toBER_sequence.
  apply (parses_as_seq 0 (map toBER [AObjectIdentifier rsaEncryption; ANull])).
  - constructor; [|constructor; [|constructor]].
    + intros g rest _.
      replace (toBER (AObjectIdentifier rsaEncryption)) with [6; 9; 42; 134; 72; 134; 247; 13; 1; 1; 1]
        by (vm_compute; reflexivity).
      reflexivity.
    + intros g rest _. reflexivity.
  - vm_compute. reflexivity.
Qed.

Lemma parses_as_key cn ce :
  Z.of_nat (List.length cn) <= 2 ^ 48 -> Z.of_nat (List.length ce) <= 2 ^ 48 ->
  parses_as 3 (toBER (ASequence [AInteger cn; AInteger ce])) (BCons 48 [BPrim 2 cn; BPrim 2 ce]).
Proof.
  intros Hn He. rewrite toBER_sequence.
  apply (parses_as_seq 0 (map toBER [AInteger cn; AInteger ce])).
  - constructor; [apply parses_as_int; lia|]. constructor; [apply parses_as_int; lia|]. constructor.
  - cbn [map concat]. rewrite app_nil_r, length_app.
    cbn [toBER List.length]. rewrite !length_app.
    pose proof (length_toBER_length (Z.of_nat (List.length cn))).
    pose proof (length_toBER_length (Z.of_nat (List.length ce))). lia.
Qed.

Lemma toBER_key_length cn ce :
  Z.of_nat (List.length cn) <= 2 ^ 48 -> Z.of_nat (List.length ce) <= 2 ^ 48 ->
  (3 <= List.length (toBER (ASequence [AInteger cn; AInteger ce])))%nat /\
  Z.of_nat (List.length (toBER (ASequence [AInteger cn; AInteger ce]))) <= 2 ^ 50.
Proof.
  intros Hn He. rewrite toBER_sequence. cbn [map concat]. rewrite app_nil_r.
  cbn [List.length]. rewrite !length_app. cbn [toBER List.length]. rewrite !length_app.
  pose proof (length_toBER_length (Z.of_nat (List.length cn))).
  pose proof (length_toBER_length (Z.of_nat (List.length ce))).
  match goal with |- context [length_toBER ?L] =>
    match L with context [length_toBER] => pose proof (length_toBER_length L) end end.
  lia.
Qed.

Lemma pkix_roundtrip (k : JsonWebKey) (n e : string)
  (Hn : jwk_n k = Some n) (He : jwk_e k = Some e)
  (Hcn : canonical_field n = true) (Hce : canonical_field e = true) :
  bind_r (jwkToPkix k) pkixToJwk = Ok (public_jwk n e).
Proof.
  destruct (canonical_integer n Hcn) as (cn & Hin & Hbn & Hfn).
  destruct (canonical_integer e Hce) as (ce & Hie & Hbe & Hfe).
  unfold jwkToPkix. rewrite Hn, He, Hin. cbn [bind_r]. rewrite Hie. cbn [bind_r].
  set (inner := toBER (ASequence [AInteger cn; AInteger ce])).
  destruct (toBER_key_length cn ce Hbn Hbe) as [Hil Hiu]. fold inner in Hil, Hiu.
  assert (Hkey : parses_as 3 inner (BCons 48 [BPrim 2 cn; BPrim 2 ce]))
    by (apply parses_as_key; assumption).
  set (alg_enc := toBER (ASequence [AObjectIdentifier rsaEncryption; ANull])).
  assert (Halg_len : List.length alg_enc = 15%nat) by (vm_compute; reflexivity).
  assert (Hout : parses_as 6 (toBER (ASequence [ASequence [AObjectIdentifier rsaEncryption; ANull];
                                               ABitString inner]))
                   (BCons 48 [BCons 48 [BPrim 6 rsa_oid_content; BPrim 5 []]; BPrim 3 (0 :: inner)])).
  { rewrite toBER_sequence.
    apply (parses_as_seq 3 (map toBER [ASequence [AObjectIdentifier rsaEncryption; ANull];
                                        ABitString inner])).
    - constructor; [exact parses_as_algorithm|].
      constructor; [|constructor].
      apply (parses_as_mono 0); [lia|]. apply parses_as_bits. lia.
    - cbn [map concat]. rewrite app_nil_r, length_app. fold alg_enc. rewrite Halg_len.
      cbn [toBER List.length]. rewrite length_app.
      pose proof (length_toBER_length (Z.of_nat (S (List.length inner)))). cbn [List.length]. lia. }
  unfold pkixToJwk, fromBER.
  set (bs := toBER (ASequence [ASequence [AObjectIdentifier rsaEncryption; ANull]; ABitString inner])).
  fold bs in Hout.
  assert (Hbs : (6 <= List.length bs)%nat).
  { unfold bs. rewrite toBER_sequence. cbn [map concat List.length]. rewrite length_app, app_nil_r, length_app.
    fold alg_enc. rewrite Halg_len. lia. }
  rewrite <- (app_nil_r bs) at 2. rewrite (Hout (List.length bs) [] Hbs).
  cbn [option_map fst get_value block_value bind_r get_at nth_error].
  unfold encapsulated. rewrite <- (app_nil_r inner) at 2. rewrite (Hkey (List.length inner) [] Hil).
  cbn -[ber_field]. rewrite Hfn. cbn -[ber_field]. rewrite Hfe. reflexivity.
Qed.

(** X4. For every JWK whose [n] and [e] are present and written in
    canonical base64url (as in the amended C5), decoding the PKIX bytes of
    [jwkToPkix] with [pkixToJwk] gives back [n] and [e], with
    [kty = 'RSA'], no [alg] and no private components. *)
Theorem pkix_jwk_roundtrip (k : JsonWebKey) (n e : string)
  (Hn : jwk_n k = Some n) (He : jwk_e k = Some e)
  (Hcn : canonical_field n = true) (Hce : canonical_field e = true) :
  bind_r (jwkToPkix k) pkixToJwk = Ok (public_jwk n e).
Proof. exact (pkix_roundtrip k n e Hn He Hcn Hce). Qed.

Lemma pkix_jwk_roundtrip_witness :
  bind_r (jwkToPkix sample_jwk) pkixToJwk = Ok (public_jwk "AQAB" "AQ").
Proof. apply (pkix_jwk_roundtrip sample_jwk "AQAB" "AQ"); vm_compute; reflexivity. Defined.

(** X5. [jwkToPkcs1] throws [InvalidParametersError('JWK was missing
    components')] as soon as one of the eight fields [n], [e], [d], [p],
    [q], [dp], [dq], [qi] is missing, whatever the others hold; [jwkToPkix]
    does the same when [n] or [e] is missing. *)
Theorem jwk_missing_components (k : JsonWebKey) :
  (In None [jwk_n k; jwk_e k; jwk_d k; jwk_p k; jwk_q k; jwk_dp k; jwk_dq k; jwk_qi k] ->
   jwkToPkcs1 k = Err (InvalidParametersError "JWK was missing components")) /\
  (jwk_n k = None \/ jwk_e k = None ->
   jwkToPkix k = Err (InvalidParametersError "JWK was missing components")).
Proof.
  split.
  - intros Hin. unfold jwkToPkcs1.
    destruct (jwk_n k), (jwk_e k), (jwk_d k), (jwk_p k), (jwk_q k), (jwk_dp k), (jwk_dq k),
      (jwk_qi k); try reflexivity.
    exfalso. cbn in Hin. intuition discriminate.
  - intros [Hn | He]; unfold jwkToPkix; [rewrite Hn | rewrite He; destruct (jwk_n k)];
      reflexivity.
Qed.

(** ** RSA key constructors *)

Lemma tbind_call {A : Type} (ev : event) (k : unit -> traced A) :
  tbind (tcall ev) k = (ev :: fst (k tt), snd (k tt)).
Proof. unfold tbind, tcall. destruct (k tt). reflexivity. Qed.

Lemma fingerprint_run `{RsaDeps} (data : bytes) :
  fingerprint data =
  ([CallPublicKeyEncode data; CallSha256 (encodeRSAPublicKey data)],
   Ok (sha256 (encodeRSAPublicKey data))).
Proof. reflexivity. Qed.

Lemma tbind_fingerprint `{RsaDeps} {A : Type} (data : bytes) (k : bytes -> traced A) :
  tbind (fingerprint data) k =
  (CallPublicKeyEncode data :: CallSha256 (encodeRSAPublicKey data) ::
     fst (k (sha256 (encodeRSAPublicKey data))),
   snd (k (sha256 (encodeRSAPublicKey data)))).
Proof.
  rewrite fingerprint_run. unfold tbind. destruct (k _). reflexivity.
Qed.

Lemma jwkToPkix_public (jwk : JsonWebKey) :
  jwkToPkix (publicKey (jwkToJWKKeyPair jwk)) = jwkToPkix jwk.
Proof. reflexivity. Qed.

Lemma jwkToRSAPrivateKey_run `{RsaDeps} (jwk : JsonWebKey) (size : Z) (pkix : bytes)
  (Hs : rsaKeySize jwk = Ok size) (Hl : size <= MAX_RSA_KEY_SIZE)
  (Hp : jwkToPkix jwk = Ok pkix) :
  jwkToRSAPrivateKey jwk =
  ([CallPublicKeyEncode pkix; CallSha256 (encodeRSAPublicKey pkix)],
   Ok (mkRSAPrivateKey jwk
         (mkRSAPublicKey (publicKey (jwkToJWKKeyPair jwk))
            (create SHA2_256_CODE (sha256 (encodeRSAPublicKey pkix)))))).
Proof.
  unfold jwkToRSAPrivateKey. rewrite Hs, tbind_lift_ok.
  replace (MAX_RSA_KEY_SIZE <? size) with false by (symmetry; apply Z.ltb_ge; lia).
  rewrite jwkToPkix_public, Hp, tbind_lift_ok, tbind_fingerprint. reflexivity.
Qed.

Lemma pkixToRSAPublicKey_run `{RsaDeps} (bs : bytes) (jwk : JsonWebKey) (size : Z)
  (Hj : pkixToJwk bs = Ok jwk) (Hs : rsaKeySize jwk = Ok size)
  (Hl : size <= MAX_RSA_KEY_SIZE) :
  pkixToRSAPublicKey bs =
  ([CallPublicKeyEncode bs; CallSha256 (encodeRSAPublicKey bs)],
   Ok (mkRSAPublicKey jwk (create SHA2_256_CODE (sha256 (encodeRSAPublicKey bs))))).
Proof.
  unfold pkixToRSAPublicKey. rewrite Hj, tbind_lift_ok, Hs, tbind_lift_ok.
  replace (MAX_RSA_KEY_SIZE <? size) with false by (symmetry; apply Z.ltb_ge; lia).
  rewrite tbind_fingerprint. reflexivity.
Qed.

(** X6. When [pkixToJwk] reads the bytes and the key size is at most
    8192, [pkixToRSAPublicKey] keeps the JWK read and fingerprints the PKIX
    bytes it was given as they are: it encodes them once as
    [pb.PublicKey] data, hashes that encoding once with sha2-256, and the
    key's digest is the sha2-256 multihash of that hash. *)
Theorem pkixToRSAPublicKey_digest `{RsaDeps} (bs : bytes) (jwk : JsonWebKey) (size : Z)
  (Hj : pkixToJwk bs = Ok jwk) (Hs : rsaKeySize jwk = Ok size)
  (Hl : size <= MAX_RSA_KEY_SIZE) :
  pkixToRSAPublicKey bs =
  ([CallPublicKeyEncode bs; CallSha256 (encodeRSAPublicKey bs)],
   Ok (mkRSAPublicKey jwk (create SHA2_256_CODE (sha256 (encodeRSAPublicKey bs))))).
Proof. exact (pkixToRSAPublicKey_run bs jwk size Hj Hs Hl). Qed.

Lemma pkixToRSAPublicKey_digest_witness :
  exists bs jwk,
    @pkixToRSAPublicKey RsaSamples.rsa_deps bs =
    ([CallPublicKeyEncode bs; CallSha256 (RsaSamples.encode_rsa_public_key bs)],
     Ok (mkRSAPublicKey jwk (create SHA2_256_CODE (RsaSamples.encode_rsa_public_key bs)))).
Proof.
  destruct (jwkToPkix sample_jwk) as [bs|] eqn:Ep; [|discriminate Ep].
  exists bs, (public_jwk "AQAB" "AQ").
  apply (@pkixToRSAPublicKey_digest RsaSamples.rsa_deps bs (public_jwk "AQAB" "AQ") 24).
  - pose proof (pkix_roundtrip sample_jwk "AQAB" "AQ" eq_refl eq_refl eq_refl eq_refl) as R.
    rewrite Ep in R. exact R.
  - vm_compute. reflexivity.
  - unfold MAX_RSA_KEY_SIZE. lia.
Defined.

(** X7. [generateRSAKeyPair bits] with [bits <= 8192]: it calls the key
    generator once with [bits]; if the generator fails, that error is the
    result and nothing is encoded or hashed. Otherwise, when the generated
    public key exports to PKIX, the private key is the generated one and the
    public key's digest is the sha2-256 multihash of the sha2-256 of the
    [pb.PublicKey] encoding of that PKIX, computed once. *)
Theorem generateRSAKeyPair_run `{RsaDeps} (bits : Z) (Hb : bits <= MAX_RSA_KEY_SIZE) :
  (forall err, generateRSAKey bits = Err err ->
     generateRSAKeyPair bits = ([CallGenerateRSAKey bits], Err err)) /\
  (forall keys pkix, generateRSAKey bits = Ok keys -> jwkToPkix (publicKey keys) = Ok pkix ->
     generateRSAKeyPair bits =
     ([CallGenerateRSAKey bits; CallPublicKeyEncode pkix; CallSha256 (encodeRSAPublicKey pkix)],
      Ok (mkRSAPrivateKey (privateKey keys)
            (mkRSAPublicKey (publicKey keys)
               (create SHA2_256_CODE (sha256 (encodeRSAPublicKey pkix))))))).
Proof.
  unfold generateRSAKeyPair.
  replace (MAX_RSA_KEY_SIZE <? bits) with false by (symmetry; apply Z.ltb_ge; lia).
  split.
  - intros err Hg. rewrite tbind_call. cbn [fst snd]. rewrite Hg. reflexivity.
  - intros keys pkix Hg Hp. rewrite tbind_call. cbn [fst snd].
    rewrite Hg, tbind_lift_ok, Hp, tbind_lift_ok, tbind_fingerprint. reflexivity.
Qed.

Lemma generateRSAKeyPair_run_witness :
  exists t k, @generateRSAKeyPair RsaSamples.rsa_deps 2048 = (CallGenerateRSAKey 2048 :: t, Ok k).
Proof.
  destruct (@generateRSAKeyPair_run RsaSamples.rsa_deps 2048 ltac:(unfold MAX_RSA_KEY_SIZE; lia))
    as [_ Hok].
  destruct (jwkToPkix (publicKey (jwkToJWKKeyPair RsaSamples.fixed_key))) as [pkix|] eqn:Ep;
    [|discriminate Ep].
  rewrite (Hok (jwkToJWKKeyPair RsaSamples.fixed_key) pkix eq_refl Ep).
  eexists. eexists. reflexivity.
Defined.

(** X8. Exporting a private key's public half and reading it back agree on
    the fingerprint: for a JWK with canonical [n] and [e] whose size, and
    that of the public JWK [pkixToJwk] reads back, is at most 8192,
    [jwkToRSAPrivateKey] succeeds, [jwkToPkix] succeeds, and
    [pkixToRSAPublicKey] of that PKIX succeeds with the same digest as the
    private key's public key and the JWK [{kty: 'RSA', n, e}]. *)
Theorem rsa_export_fingerprint `{RsaDeps} (jwk : JsonWebKey) (n e : string) (s s' : Z)
  (Hn : jwk_n jwk = Some n) (He : jwk_e jwk = Some e)
  (Hcn : canonical_field n = true) (Hce : canonical_field e = true)
  (Hs : rsaKeySize jwk = Ok s) (Hsl : s <= MAX_RSA_KEY_SIZE)
  (Hs' : rsaKeySize (public_jwk n e) = Ok s') (Hsl' : s' <= MAX_RSA_KEY_SIZE) :
  exists pkix priv pub t1 t2,
    jwkToPkix jwk = Ok pkix /\
    jwkToRSAPrivateKey jwk = (t1, Ok priv) /\
    pkixToRSAPublicKey pkix = (t2, Ok pub) /\
    rsa_pub_digest pub = rsa_pub_digest (rsa_priv_public priv) /\
    rsa_pub_jwk pub = public_jwk n e.
Proof.
  pose proof (pkix_roundtrip jwk n e Hn He Hcn Hce) as R.
  destruct (jwkToPkix jwk) as [pkix|err] eqn:Ep; [|discriminate R].
  cbn [bind_r] in R.
  do 5 eexists. split; [reflexivity|]. split.
  - exact (jwkToRSAPrivateKey_run jwk s pkix Hs Hsl Ep).
  - split; [exact (pkixToRSAPublicKey_run pkix (public_jwk n e) s' R Hs' Hsl')|].
    split; reflexivity.
Qed.

Lemma rsa_export_fingerprint_witness :
  exists pkix priv pub t1 t2,
    jwkToPkix sample_jwk = Ok pkix /\
    @jwkToRSAPrivateKey RsaSamples.rsa_deps sample_jwk = (t1, Ok priv) /\
    @pkixToRSAPublicKey RsaSamples.rsa_deps pkix = (t2, Ok pub) /\
    rsa_pub_digest pub = rsa_pub_digest (rsa_priv_public priv) /\
    rsa_pub_jwk pub = public_jwk "AQAB" "AQ".
Proof.
  apply (@rsa_export_fingerprint RsaSamples.rsa_deps sample_jwk "AQAB" "AQ" 24 24);
    try reflexivity; unfold MAX_RSA_KEY_SIZE; lia.
Defined.

(** ** Peer ids *)

(** X9. [peerIdFromMultihash] rejects every multihash whose code is
    neither sha2-256 ([0x12]) nor identity ([0x00]) with
    [InvalidMultihashError], whatever the key parser would say. *)
Theorem peerIdFromMultihash_other_code `{PeerIdDeps} (mh : Multihash)
  (H0 : mh_code mh <> IDENTITY_CODE) (H18 : mh_code mh <> SHA2_256_CODE) :
  peerIdFromMultihash mh = Err (InvalidMultihashError "Supplied PeerID Multihash is invalid").
Proof.
  unfold peerIdFromMultihash, isSha256Multihash, isIdentityMultihash.
  apply Z.eqb_neq in H0, H18. rewrite H0, H18. reflexivity.
Qed.

Lemma peerIdFromMultihash_other_code_witness :
  @peerIdFromMultihash Samples.peer_deps (mkMultihash 19 [1; 2])
  = Err (InvalidMultihashError "Supplied PeerID Multihash is invalid").
Proof.
  apply (@peerIdFromMultihash_other_code Samples.peer_deps); discriminate.
Defined.

(** X10. Every peer id [peerIdFromMultihash mh] returns is built from
    [mh]: an [RSAPeerId] of [mh] with no key, only for a sha2-256 code; an
    Ed25519 or secp256k1 peer id of [mh] holding the key parsed from [mh],
    of that type, only for the identity code; a URL peer id only for the
    identity code when key parsing fails. *)
Theorem peerIdFromMultihash_result `{PeerIdDeps} (mh : Multihash) (p : PeerId)
  (Hp : peerIdFromMultihash mh = Ok p) :
  (mh_code mh = SHA2_256_CODE /\ p = RSAPeerId mh None) \/
  (mh_code mh = IDENTITY_CODE /\ exists pk, publicKeyFromMultihash mh = Ok pk /\
     ((pk_type pk = "Ed25519"%string /\ p = Ed25519PeerId mh pk) \/
      (pk_type pk = "secp256k1"%string /\ p = Secp256k1PeerId mh pk))) \/
  (mh_code mh = IDENTITY_CODE /\ (exists err, publicKeyFromMultihash mh = Err err) /\
     exists url, p = URLPeerId url).
Proof.
  unfold peerIdFromMultihash, isSha256Multihash, isIdentityMultihash in Hp.
  destruct (mh_code mh =? SHA2_256_CODE) eqn:E18.
  - left. apply Z.eqb_eq in E18. injection Hp as <-. auto.
  - destruct (mh_code mh =? IDENTITY_CODE) eqn:E0; [|discriminate Hp].
    apply Z.eqb_eq in E0. right.
    destruct (publicKeyFromMultihash mh) as [pk|err] eqn:Ek.
    + left. split; [exact E0|]. exists pk. split; [reflexivity|].
      destruct (String.eqb (pk_type pk) "Ed25519") eqn:Ee.
      * apply String.eqb_eq in Ee. injection Hp as <-. auto.
      * destruct (String.eqb (pk_type pk) "secp256k1") eqn:Es; [|discriminate Hp].
        apply String.eqb_eq in Es. injection Hp as <-. auto.
    + right. split; [exact E0|]. split; [eauto|].
      unfold url_peer in Hp. destruct (new_URL _) as [u|]; [|discriminate Hp].
      injection Hp as <-. eauto.
Qed.

Lemma peerIdFromMultihash_result_witness :
  @peerIdFromMultihash Samples.peer_deps sample_ed25519_multihash
  = Ok (Ed25519PeerId sample_ed25519_multihash sample_ed25519_key) /\
  (IDENTITY_CODE = IDENTITY_CODE /\
   exists pk, @publicKeyFromMultihash Samples.peer_deps sample_ed25519_multihash = Ok pk /\
     ((pk_type pk = "Ed25519"%string /\
       Ed25519PeerId sample_ed25519_multihash sample_ed25519_key = Ed25519PeerId sample_ed25519_multihash pk) \/
      (pk_type pk = "secp256k1"%string /\
       Ed25519PeerId sample_ed25519_multihash sample_ed25519_key = Secp256k1PeerId sample_ed25519_multihash pk))).
Proof.
  assert (Hp : @peerIdFromMultihash Samples.peer_deps sample_ed25519_multihash
               = Ok (Ed25519PeerId sample_ed25519_multihash sample_ed25519_key))
    by (vm_compute; reflexivity).
  split; [exact Hp|].
  destruct (@peerIdFromMultihash_result Samples.peer_deps _ _ Hp) as [[H _] | [H | [_ [[err He] _]]]].
  - discriminate H.
  - exact H.
  - vm_compute in He. discriminate He.
Defined.

(** X11. [peerIdFromCID] throws [InvalidCIDError] for a CID without a
    multihash or without a version, and for a CIDv1 whose codec is neither
    libp2p-key ([0x72]) nor transport-ipfs-gateway-http ([0x0920]); a CID
    with a multihash and codec libp2p-key, of any version, is handed to
    [peerIdFromMultihash]. *)
Theorem peerIdFromCID_cases `{PeerIdDeps} (cid : CID) :
  ((cid_multihash cid = None \/ cid_version cid = None \/
    (cid_version cid = Some 1 /\ cid_code cid <> LIBP2P_KEY_CODE /\
     cid_code cid <> TRANSPORT_IPFS_GATEWAY_HTTP_CODE)) ->
   peerIdFromCID cid = Err (InvalidCIDError "Supplied PeerID CID is invalid")) /\
  (forall mh v, cid_multihash cid = Some mh -> cid_version cid = Some v ->
   cid_code cid = LIBP2P_KEY_CODE -> peerIdFromCID cid = peerIdFromMultihash mh).
Proof.
  unfold peerIdFromCID. split.
  - intros [Hm | [Hv | (Hv & Hk & Hg)]].
    + rewrite Hm. reflexivity.
    + destruct (cid_multihash cid); [rewrite Hv|]; reflexivity.
    + destruct (cid_multihash cid); [rewrite Hv|reflexivity].
      apply Z.eqb_neq in Hk, Hg. rewrite Hk, Hg. reflexivity.
  - intros mh v Hm Hv Hc. rewrite Hm, Hv, Hc.
    replace (LIBP2P_KEY_CODE =? LIBP2P_KEY_CODE) with true by reflexivity.
    replace (LIBP2P_KEY_CODE =? TRANSPORT_IPFS_GATEWAY_HTTP_CODE) with false by reflexivity.
    rewrite andb_false_r. reflexivity.
Qed.

(** X12. For a string whose first character is neither ['1'] nor ['Q']
    (the empty string included), [peerIdFromString] without a decoder throws
    [InvalidParametersError] asking for a multibase decoder, and with a
    decoder that throws it throws [InvalidParametersError('The passed PeerID
    string could not be decoded using the provided multibase decoder')],
    whatever the decoder threw. *)
Theorem peerIdFromString_decoder_errors `{PeerIdDeps} (str : string)
  (H1 : charAt0 str <> "1"%string) (HQ : charAt0 str <> "Q"%string) :
  peerIdFromString str None = Err (InvalidParametersError missing_decoder_message) /\
  (forall decode err, decode str = Err err ->
   peerIdFromString str (Some decode) =
   Err (InvalidParametersError
          "The passed PeerID string could not be decoded using the provided multibase decoder")).
Proof.
  unfold peerIdFromString.
  apply String.eqb_neq in H1, HQ. rewrite H1, HQ. cbn [orb].
  split; [reflexivity|]. intros decode err Hd. rewrite Hd. reflexivity.
Qed.

Lemma peerIdFromString_decoder_errors_witness :
  @peerIdFromString Samples.peer_deps "" None = Err (InvalidParametersError missing_decoder_message).
Proof.
  apply (@peerIdFromString_decoder_errors Samples.peer_deps ""); discriminate.
Defined.

(** X13. A string starting with ['1'] or ['Q'] is always decoded as
    base58btc: [peerIdFromString] gives the same result, success or error,
    whichever decoder is passed, or none. *)
Theorem peerIdFromString_ignores_decoder `{PeerIdDeps} (str : string)
  (d1 d2 : option (string -> result bytes))
  (Hc : charAt0 str = "1"%string \/ charAt0 str = "Q"%string) :
  peerIdFromString str d1 = peerIdFromString str d2.
Proof.
  unfold peerIdFromString.
  destruct Hc as [Hc | Hc]; rewrite Hc; reflexivity.
Qed.

Lemma peerIdFromString_ignores_decoder_witness :
  @peerIdFromString Samples.peer_deps ("Q" ++ sample_rsa_peer_rest) None =
  @peerIdFromString Samples.peer_deps ("Q" ++ sample_rsa_peer_rest)
    (Some (fun _ => Err (JsError "unused"))).
Proof.
  apply (@peerIdFromString_ignores_decoder Samples.peer_deps). right. reflexivity.
Defined.

(** X14. [peerIdFromPublicKey] and [peerIdFromMultihash] agree on Ed25519
    and secp256k1 keys: when the key's CID multihash has the identity code
    and [publicKeyFromMultihash] reads the key back from it, both give the
    same peer id. For an RSA key whose CID multihash is sha2-256, both give
    an [RSAPeerId] of that multihash, but only [peerIdFromPublicKey] keeps
    the key. *)
Theorem peerIdFromPublicKey_multihash `{PeerIdDeps} (pk : PublicKey) :
  ((pk_type pk = "Ed25519"%string \/ pk_type pk = "secp256k1"%string) ->
   mh_code (pk_cid_multihash pk) = IDENTITY_CODE ->
   publicKeyFromMultihash (pk_cid_multihash pk) = Ok pk ->
   peerIdFromMultihash (pk_cid_multihash pk) = peerIdFromPublicKey pk) /\
  (pk_type pk = "RSA"%string -> mh_code (pk_cid_multihash pk) = SHA2_256_CODE ->
   peerIdFromMultihash (pk_cid_multihash pk) = Ok (RSAPeerId (pk_cid_multihash pk) None) /\
   peerIdFromPublicKey pk = Ok (RSAPeerId (pk_cid_multihash pk) (Some pk))).
Proof.
  unfold peerIdFromMultihash, peerIdFromPublicKey, isSha256Multihash, isIdentityMultihash.
  split.
  - intros Ht Hc Hk. rewrite Hc, Hk.
    replace (IDENTITY_CODE =? SHA2_256_CODE) with false by reflexivity.
    replace (IDENTITY_CODE =? IDENTITY_CODE) with true by reflexivity.
    destruct Ht as [Ht | Ht]; rewrite Ht; reflexivity.
  - intros Ht Hc. rewrite Hc, Ht, Z.eqb_refl. split; reflexivity.
Qed.

Lemma peerIdFromPublicKey_multihash_witness :
  @peerIdFromMultihash Samples.peer_deps (pk_cid_multihash sample_ed25519_key) =
  peerIdFromPublicKey sample_ed25519_key.
Proof.
  destruct (@peerIdFromPublicKey_multihash Samples.peer_deps sample_ed25519_key) as [H _].
  apply H; [left; reflexivity | reflexivity | vm_compute; reflexivity].
Defined.

(** ** The WebRTC-direct transport *)


(** X16. [_connect] reads the remote peer id with [peerIdFromString] and
    no decoder, so a multiaddr whose peer-id string does not start with
    ['1'] or ['Q'] (a peer id written as a CID, say) is never dialled: it
    throws the missing-decoder [InvalidParametersError] before any peer
    connection is created. *)
Theorem connect_rejects_cid_peer_ids `{PeerIdDeps} {Multiaddr PeerConnection Connection : Type}
  `{WebRTCDirectDeps Multiaddr PeerConnection Connection} (ma : Multiaddr) (str : string)
  (Hp : getPeerId ma = Some str)
  (H1 : charAt0 str <> "1"%string) (HQ : charAt0 str <> "Q"%string) :
  _connect ma = ([], inr (RtcError (InvalidParametersError missing_decoder_message))).
Proof.
  unfold _connect, peerIdFromString. rewrite Hp.
  apply String.eqb_neq in H1, HQ. rewrite H1, HQ. reflexivity.
Qed.

Lemma connect_rejects_cid_peer_ids_witness :
  @_connect Samples.peer_deps RtcSamples.sample_ma nat string RtcSamples.rtc_deps
    (RtcSamples.mkSampleMa (Some "bafzaajaiaejca"%string) (Ok [18; 0]) true)
  = ([], inr (RtcError (InvalidParametersError missing_decoder_message))).
Proof.
  apply (@connect_rejects_cid_peer_ids Samples.peer_deps _ _ _ RtcSamples.rtc_deps _
           "bafzaajaiaejca"%string); [reflexivity | discriminate | discriminate].
Defined.

(** X17. [_connect] never leaks a peer connection and never closes one it
    did not use: a peer connection handed to [connect] is closed exactly
    when [_connect] fails, and every peer connection it closes is one it
    handed to [connect]. *)
Theorem connect_closes_on_failure `{PeerIdDeps} {Multiaddr PeerConnection Connection : Type}
  `{WebRTCDirectDeps Multiaddr PeerConnection Connection} (ma : Multiaddr) :
  let '(t, r) := _connect ma in
  (forall pc u h p, In (CallConnect pc u h p) t ->
     (In (CallClose pc) t <-> exists e, r = inr e)) /\
  (forall pc, In (CallClose pc) t -> exists u h p, In (CallConnect pc u h p) t).
Proof.
  unfold _connect.
  destruct (getPeerId ma) as [str|]; [|cbn; split; intros; contradiction].
  destruct (peerIdFromString str None) as [p|e]; [|cbn; split; intros; contradiction].
  destruct (bind_r _ _) as [mh|e]; [|cbn; split; intros; contradiction].
  destruct (createDialerRTCPeerConnection _) as [pc|e].
  2:{ cbn. split; intros; intuition discriminate. }
  destruct (rtc_connect _ _ _ _ _) as [c|e]; cbn; split.
  - intros pc' u h p' [Hc | [Hc | []]]; [discriminate|].
    split; [intros [Hx | [Hx | []]]; discriminate | intros [e He]; discriminate].
  - intros pc' [Hx | [Hx | []]]; discriminate.
  - intros pc' u h p' [Hc | [Hc | [Hc | []]]]; try discriminate.
    injection Hc as <- _ _ _. split.
    + intros _. exists (RtcError e). reflexivity.
    + intros _. right. right. left. reflexivity.
  - intros pc' [Hx | [Hx | [Hx | []]]]; try discriminate.
    injection Hx as <-. exists (UFRAG_PREFIX ++ genUfrag 32)%string, (mh_code mh), p.
    right. left. reflexivity.
Qed.

(** X18. When [_connect] succeeds it has created exactly one peer
    connection, for the ufrag [UFRAG_PREFIX + genUfrag(32)], and handed it
    to [connect] with that ufrag, the hash code of the multiaddr's
    certhash and the remote peer id [peerIdFromString] read from the
    multiaddr; nothing is closed. *)
Theorem connect_success `{PeerIdDeps} {Multiaddr PeerConnection Connection : Type}
  `{WebRTCDirectDeps Multiaddr PeerConnection Connection} (ma : Multiaddr)
  (t : list (rtc_event PeerConnection)) (c : Connection)
  (Hc : _connect ma = (t, inl c)) :
  exists str p mh pc,
    getPeerId ma = Some str /\ peerIdFromString str None = Ok p /\
    bind_r (sdp_certhash ma) decodeCerthash = Ok mh /\
    createDialerRTCPeerConnection (UFRAG_PREFIX ++ genUfrag 32)%string = Ok pc /\
    rtc_connect pc (UFRAG_PREFIX ++ genUfrag 32)%string ma (mh_code mh) p = Ok c /\
    t = [CallCreateDialerRTCPeerConnection (UFRAG_PREFIX ++ genUfrag 32)%string;
         CallConnect pc (UFRAG_PREFIX ++ genUfrag 32)%string (mh_code mh) p].
Proof.
  unfold _connect in Hc.
  destruct (getPeerId ma) as [str|] eqn:E1; [|discriminate Hc].
  destruct (peerIdFromString str None) as [p|e] eqn:E2; [|discriminate Hc].
  destruct (bind_r _ _) as [mh|e] eqn:E3; [|discriminate Hc].
  destruct (createDialerRTCPeerConnection _) as [pc|e] eqn:E4; [|discriminate Hc].
  destruct (rtc_connect _ _ _ _ _) as [c'|e] eqn:Ec; [|discriminate Hc].
  injection Hc as <- <-. exists str, p, mh, pc. repeat split; assumption.
Qed.

Lemma connect_success_witness :
  exists str p mh pc,
    @getPeerId _ _ _ RtcSamples.rtc_deps
      (RtcSamples.mkSampleMa (Some ("Q" ++ sample_rsa_peer_rest)%string) (Ok [18; 0]) true) = Some str /\
    @peerIdFromString Samples.peer_deps str None = Ok p /\
    @bind_r _ _ (@sdp_certhash _ _ _ RtcSamples.rtc_deps
      (RtcSamples.mkSampleMa (Some ("Q" ++ sample_rsa_peer_rest)%string) (Ok [18; 0]) true))
      (@decodeCerthash _ _ _ RtcSamples.rtc_deps) = Ok mh /\
    @createDialerRTCPeerConnection _ _ _ RtcSamples.rtc_deps "libp2p+webrtc+v1/abcd" = Ok pc /\
    @rtc_connect _ _ _ RtcSamples.rtc_deps pc "libp2p+webrtc+v1/abcd"
      (RtcSamples.mkSampleMa (Some ("Q" ++ sample_rsa_peer_rest)%string) (Ok [18; 0]) true)
      (mh_code mh) p = Ok "connection"%string /\
    fst (@_connect Samples.peer_deps _ _ _ RtcSamples.rtc_deps
      (RtcSamples.mkSampleMa (Some ("Q" ++ sample_rsa_peer_rest)%string) (Ok [18; 0]) true)) =
    [CallCreateDialerRTCPeerConnection "libp2p+webrtc+v1/abcd";
     CallConnect pc "libp2p+webrtc+v1/abcd" (mh_code mh) p].
Proof.
  apply (@connect_success Samples.peer_deps _ _ _ RtcSamples.rtc_deps _ _ "connection"%string).
  vm_compute. reflexivity.
Defined.

Example b64url_encode_one : b64url_encode [1] = "AQ"%string.
Proof. reflexivity. Qed.
Example b64url_decode_one : b64url_decode "AQ" = Ok [1].
Proof. reflexivity. Qed.
Example b64url_decode_lead : b64url_decode "AAE" = Ok [0; 1].
Proof. reflexivity. Qed.
Example bnToBuf_ex : bnToBuf 65537 = [1; 0; 1].
Proof. reflexivity. Qed.
Example bnToBuf_zero : bnToBuf 0 = [0].
Proof. reflexivity. Qed.
Example bufToBn_ex : bufToBn [1; 0; 1] = Ok 65537.
Proof. reflexivity. Qed.
Example bufToBn_empty : bufToBn [] = Err (SyntaxError "Cannot convert 0x to a BigInt").
Proof. reflexivity. Qed.

Example algorithm_identifier_der :
  toBER (ASequence [AObjectIdentifier rsaEncryption; ANull]) =
  [48; 13; 6; 9; 42; 134; 72; 134; 247; 13; 1; 1; 1; 5; 0].
Proof. reflexivity. Qed.
Example integer_high_bit : Integer_fromBigInt 128 = AInteger [0; 128].
Proof. reflexivity. Qed.
Example integer_neg : Integer_fromBigInt (-1) = AInteger [255].
Proof. reflexivity. Qed.
Example integer_neg2 : Integer_fromBigInt (-129) = AInteger [255; 127].
Proof. reflexivity. Qed.
Example long_length : length_toBER 300 = [130; 1; 44].
Proof. reflexivity. Qed.

Example pkcs1_sample : bind_r (jwkToPkcs1 sample_jwk) pkcs1ToJwk = Ok sample_jwk.
Proof. vm_compute. reflexivity. Qed.

Example pkix_sample :
  bind_r (jwkToPkix sample_jwk) pkixToJwk =
  Ok {| kty := Some "RSA"%string; alg := None; jwk_n := Some "AQAB"%string; jwk_e := Some "AQ"%string;
        jwk_d := None; jwk_p := None; jwk_q := None; jwk_dp := None; jwk_dq := None;
        jwk_qi := None |}.
Proof. vm_compute. reflexivity. Qed.
